(** * GitTide: commit graph layout and rendering

    A shallow embedding of the commit-graph engine of the GitTide
    application.  [Module GitTide] follows the main React component
    (state, [refreshData], [handleCloseRepository], [calculatePath],
    [handleCommitClick] and the three SVG passes of the graph);
    [Module PagesIndex] follows the static page [src/pages/index.tsx]
    ([CommitGraph] and [renderBranchLines]); [Module LaneAssignment]
    holds the lane assignment, which the sources do not contain and
    which is therefore written down from its description.

    Conventions.  A React state hook is a field of the record [State];
    a setter call is a function [State -> State]; an asynchronous
    handler is the list of setter calls it performs once its awaited
    promise has settled.  Pixel coordinates computed from a row index and
    an integer column are integers ([Z]); the two midpoints that
    [calculatePath] obtains with [/ 2] are rationals ([Q]).  The SVG path
    string that [calculatePath] returns is represented by the list of the
    path commands it spells out. *)

From stdpp Require Import base decidable option list list_numbers strings
  numbers relations gmap.
From Stdlib Require Import QArith Lqa Ascii.

Local Open Scope Z_scope.

(** ** SVG path data *)

Inductive PathCmd : Type :=
  | MoveTo (x y : Q)
  | LineTo (x y : Q)
  | QuadTo (x1 y1 x y : Q)
  | CubicTo (x1 y1 x2 y2 x y : Q).

Definition Path : Type := list PathCmd.

(** The points a path names: for each command its control points and
    its end point, in order; where a path starts and where it ends. *)
Definition cmdPoints (c : PathCmd) : list (Q * Q) :=
  match c with
  | MoveTo x y => [(x, y)]
  | LineTo x y => [(x, y)]
  | QuadTo x1 y1 x y => [(x1, y1); (x, y)]
  | CubicTo x1 y1 x2 y2 x y => [(x1, y1); (x2, y2); (x, y)]
  end.

Definition cmdEnd (c : PathCmd) : Q * Q :=
  match c with
  | MoveTo x y => (x, y)
  | LineTo x y => (x, y)
  | QuadTo _ _ x y => (x, y)
  | CubicTo _ _ _ _ x y => (x, y)
  end.

Definition pathPoints (d : Path) : list (Q * Q) :=
  d ≫= cmdPoints.

Definition pathStart (d : Path) : option (Q * Q) :=
  match d with
  | MoveTo x y :: _ => Some (x, y)
  | _ => None
  end.

Definition pathEnd (d : Path) : option (Q * Q) :=
  cmdEnd <$> last d.

(** The point [pt] lies in the rectangle spanned by the integer points
    [(ax, ay)] and [(bx, by)]. *)
Definition inBox (ax ay bx by_ : Z) (pt : Q * Q) : Prop :=
  (inject_Z (Z.min ax bx) <= pt.1)%Q ∧ (pt.1 <= inject_Z (Z.max ax bx))%Q ∧
  (inject_Z (Z.min ay by_) <= pt.2)%Q ∧ (pt.2 <= inject_Z (Z.max ay by_))%Q.

Module GitTide.

(** ** Data as the backend hands it over *)

Record Commit : Type := mkCommit {
  id : string;
  message : string;
  author : string;
  timestamp : string;
  branch : option string;
  parents : list string;
  position : Z;
  color : string;
  type : string
}.

Record Branch : Type := mkBranch {
  name : string;
  is_head : bool
}.

(** ** calculatePath *)

Definition radius : Z := 10.
Definition minVerticalDist : Z := radius * 2.

Definition calculatePath (startX startY endX endY : Z) : Path :=
  let verticalDist := Z.abs (endY - startY) in
  if bool_decide (startX = endX) then
    [MoveTo (inject_Z startX) (inject_Z startY);
     LineTo (inject_Z endX) (inject_Z endY)]
  else if bool_decide (verticalDist < minVerticalDist) then
    let midY := (inject_Z (startY + endY) / 2)%Q in
    [MoveTo (inject_Z startX) (inject_Z startY);
     QuadTo (inject_Z startX) midY (inject_Z (startX + endX) / 2)%Q midY;
     QuadTo (inject_Z endX) midY (inject_Z endX) (inject_Z endY)]
  else
    let directionY := if bool_decide (endY > startY) then 1 else -1 in
    let cornerY :=
      if bool_decide (directionY = 1) then endY - radius else endY + radius in
    [MoveTo (inject_Z startX) (inject_Z startY);
     LineTo (inject_Z startX) (inject_Z cornerY);
     QuadTo (inject_Z startX) (inject_Z endY)
            (inject_Z (startX + (if bool_decide (endX > startX)
                                 then radius else - radius)))
            (inject_Z endY);
     LineTo (inject_Z endX) (inject_Z endY)].

(** Where a node sits: the renderer's [40 + commit.position * 20] and
    [index * 80 + 40]. *)
Definition nodeX (lane : Z) : Z := 40 + lane * 20.
Definition nodeY (row : nat) : Z := Z.of_nat row * 80 + 40.

(** ** The three shapes of a connector, as geometry

    These predicates say what a path looks like between a child node
    [(cx, cy)] and a parent node [(px, py)]; they do not mention the
    branches of [calculatePath]. *)

(** One vertical segment from the child's node to the parent's node. *)
Definition Straight (cx cy px py : Z) (d : Path) : Prop :=
  cx = px ∧
  d = [MoveTo (inject_Z cx) (inject_Z cy); LineTo (inject_Z px) (inject_Z py)].

(** Two quadratic arcs that meet in the point halfway between child and
    parent, both horizontally and vertically; the first leaves the child
    along its own column, the second enters the parent along the
    parent's column, and both control points lie on the middle row. *)
Definition SCurve (cx cy px py : Z) (d : Path) : Prop :=
  ∃ mx my : Q,
    d = [MoveTo (inject_Z cx) (inject_Z cy);
         QuadTo (inject_Z cx) my mx my;
         QuadTo (inject_Z px) my (inject_Z px) (inject_Z py)] ∧
    (mx - inject_Z cx == inject_Z px - mx)%Q ∧
    (my - inject_Z cy == inject_Z py - my)%Q.

(** A vertical run in the child's column that stops one node radius
    short of the parent's row (on the child's side of that row), an arc
    whose control point is the corner [(cx, py)] and which ends on the
    parent's row one radius away from the child's column, on the
    parent's side, and a run along the parent's row into the parent. *)
Definition CornerCurve (cx cy px py : Z) (d : Path) : Prop :=
  ∃ cornerY bendX : Z,
    d = [MoveTo (inject_Z cx) (inject_Z cy);
         LineTo (inject_Z cx) (inject_Z cornerY);
         QuadTo (inject_Z cx) (inject_Z py) (inject_Z bendX) (inject_Z py);
         LineTo (inject_Z px) (inject_Z py)] ∧
    Z.abs (py - cornerY) = radius ∧
    (cy <= cornerY < py ∨ py < cornerY <= cy) ∧
    Z.abs (bendX - cx) = radius ∧
    (cx < px → cx < bendX) ∧
    (px < cx → bendX < cx).

(** ** Component state: one field per [useState] hook *)

Record State : Type := mkState {
  currentRepo : option string;
  branches : list Branch;
  gitHistory : list Commit;
  error : option string;
  loading : bool;
  selectedCommit : option Commit;
  autoRefresh : bool
}.

(** The values the hooks are created with. *)
Definition initialState : State :=
  mkState None [] [] None false None true.

Definition setCurrentRepo (v : option string) (s : State) : State :=
  mkState v (branches s) (gitHistory s) (error s) (loading s)
          (selectedCommit s) (autoRefresh s).
Definition setBranches (v : list Branch) (s : State) : State :=
  mkState (currentRepo s) v (gitHistory s) (error s) (loading s)
          (selectedCommit s) (autoRefresh s).
Definition setGitHistory (v : list Commit) (s : State) : State :=
  mkState (currentRepo s) (branches s) v (error s) (loading s)
          (selectedCommit s) (autoRefresh s).
Definition setError (v : option string) (s : State) : State :=
  mkState (currentRepo s) (branches s) (gitHistory s) v (loading s)
          (selectedCommit s) (autoRefresh s).
Definition setLoading (v : bool) (s : State) : State :=
  mkState (currentRepo s) (branches s) (gitHistory s) (error s) v
          (selectedCommit s) (autoRefresh s).
Definition setSelectedCommit (v : option Commit) (s : State) : State :=
  mkState (currentRepo s) (branches s) (gitHistory s) (error s) (loading s)
          v (autoRefresh s).
Definition setAutoRefresh (v : bool) (s : State) : State :=
  mkState (currentRepo s) (branches s) (gitHistory s) (error s) (loading s)
          (selectedCommit s) v.

(** A handler is the sequence of setter calls it makes.  [statesAfter]
    lists the state after each call, [runCalls] gives the last one. *)
Definition runCalls (calls : list (State → State)) (s : State) : State :=
  foldl (λ acc f, f acc) s calls.

Fixpoint statesAfter (calls : list (State → State)) (s : State) : list State :=
  match calls with
  | [] => []
  | f :: rest => f s :: statesAfter rest (f s)
  end.

(** ** The transport and refreshData *)

(** How a promise settles.  A fulfilled [tauriInvoke] carries what the
    backend sent, [None] standing for [null] or [undefined]; a rejected
    one carries the text of the error ([err.toString()]). *)
Inductive Settled (A : Type) : Type :=
  | Fulfilled (value : A)
  | Rejected (reason : string).
Arguments Fulfilled {A} value.
Arguments Rejected {A} reason.

(** [Promise.all] of two promises: fulfilled with both values when both
    are, rejected as soon as one is.  When both reject, the reason is
    that of whichever rejected first; the left one is taken here. *)
Definition Promise_all {A B : Type} (a : Settled A) (b : Settled B)
  : Settled (A * B) :=
  match a, b with
  | Fulfilled x, Fulfilled y => Fulfilled (x, y)
  | Rejected e, _ => Rejected e
  | _, Rejected e => Rejected e
  end.

(** What one refresh receives: the settled
    [Promise.all([get_branches, get_git_history])]. *)
Definition Batch : Type :=
  Settled (option (list Branch) * option (list Commit)).

(** [x || []] on a value that is an array, [null] or [undefined]. *)
Definition orEmpty {A : Type} (x : option (list A)) : list A :=
  match x with
  | Some l => l
  | None => []
  end.

Definition refreshData_calls (batch : Batch) : list (State → State) :=
  [setLoading true] ++
  match batch with
  | Fulfilled (branchesData, historyData) =>
      [setBranches (orEmpty branchesData);
       setGitHistory (orEmpty historyData);
       setError None]
  | Rejected err =>
      [setError (Some err)]
  end ++
  [setLoading false].

Definition refreshData (s : State) (batch : Batch) : State :=
  runCalls (refreshData_calls batch) s.

(** The engine's reconciliation of a refresh result is [refreshData]. *)
Definition reconcile (s : State) (batch : Batch) : State :=
  refreshData s batch.

(** ** handleOpenRepository, handleCloseRepository *)

(** Truthiness of a value that is a string or [null]: the empty string
    is falsy as well. *)
Definition truthy (v : option string) : bool :=
  match v with
  | Some str => negb (bool_decide (str = ""))
  | None => false
  end.

(** [selected] is what the directory dialog returned; [opened] is how
    [open_repository] settled. *)
Definition handleOpenRepository_calls
    (selected : Settled (option string)) (opened : Settled unit)
  : list (State → State) :=
  match selected with
  | Fulfilled path =>
      if truthy path then
        [setLoading true] ++
        match opened with
        | Fulfilled _ => [setCurrentRepo path; setError None]
        | Rejected err => [setError (Some err)]
        end
      else []
  | Rejected err => [setError (Some err)]
  end ++
  [setLoading false].

Definition handleCloseRepository_calls : list (State → State) :=
  [setCurrentRepo None;
   setBranches [];
   setGitHistory [];
   setSelectedCommit None;
   setError None].

Definition handleCloseRepository (s : State) : State :=
  runCalls handleCloseRepository_calls s.

(** ** Selection *)

(** [selectedCommit?.id === commit.id]: with nothing selected the left
    side is [undefined] and the test is false. *)
Definition isSelected (s : State) (commit : Commit) : bool :=
  bool_decide (id <$> selectedCommit s = Some (id commit)).

Definition handleCommitClick (s : State) (commit : Commit) : State :=
  setSelectedCommit (if isSelected s commit then None else Some commit) s.

(** The close button of the details panel. *)
Definition dismissSelection (s : State) : State :=
  setSelectedCommit None s.

(** ** Events of the engine *)

Inductive Event : Type :=
  | Click (commit : Commit)
  | RefreshResult (batch : Batch)
  | Dismiss
  | CloseRepository.

Definition step (s : State) (e : Event) : State :=
  match e with
  | Click commit => handleCommitClick s commit
  | RefreshResult batch => reconcile s batch
  | Dismiss => dismissSelection s
  | CloseRepository => handleCloseRepository s
  end.

Definition run (s : State) (events : list Event) : State :=
  foldl step s events.

(** ** The graph: what the SVG contains

    Each of the three [gitHistory.map] passes yields one entry per
    commit, [None] where the callback returns [null]. *)

Record LineElem : Type := mkLine {
  line_key : string;
  x1 : Z; y1 : Z; x2 : Z; y2 : Z;
  line_stroke : string
}.

Record PathElem : Type := mkPath {
  path_key : string;
  d : Path;
  path_stroke : string
}.

Record NodeElem : Type := mkNode {
  node_key : string;
  onClick : Commit;
  highlighted : bool;
  cx : Z; cy : Z; r : Z;
  label : string
}.

(** [array.find(pred)] and [array.findIndex(pred)]; the latter answers
    [-1] when nothing matches. *)
Definition find {A : Type} (P : A → Prop) `{∀ x, Decision (P x)}
    (l : list A) : option A :=
  snd <$> list_find P l.

Definition findIndex {A : Type} (P : A → Prop) `{∀ x, Decision (P x)}
    (l : list A) : Z :=
  match list_find P l with
  | Some (i, _) => Z.of_nat i
  | None => -1
  end.

(** First pass, "continuous branch lines". *)
Definition branchLine (gitHistory : list Commit) (index : nat)
    (commit : Commit) : option LineElem :=
  let x := 40 + position commit * 20 in
  let y := Z.of_nat index * 80 + 40 in
  match gitHistory !! (index + 1)%nat with
  | Some nextCommit =>
      if bool_decide (position nextCommit = position commit) then
        Some (mkLine ("branch-" +:+ id commit) x y x (y + 80) (color commit))
      else None
  | None => None
  end.

Definition branchLines (gitHistory : list Commit) : list (option LineElem) :=
  imap (branchLine gitHistory) gitHistory.

(** Second pass, "branch connections". *)
Definition branchConnection (gitHistory : list Commit) (index : nat)
    (commit : Commit) : option PathElem :=
  match parents commit with
  | [] => None
  | parent0 :: _ =>
      let startX := 40 + position commit * 20 in
      let startY := Z.of_nat index * 80 + 40 in
      match find (λ c, id c = parent0) gitHistory with
      | Some parentCommit =>
          let parentIndex := findIndex (λ c, id c = id parentCommit) gitHistory in
          let endX := 40 + position parentCommit * 20 in
          let endY := parentIndex * 80 + 40 in
          if bool_decide (startX ≠ endX ∨ Z.abs (parentIndex - Z.of_nat index) > 1)
          then
            Some (mkPath (id commit +:+ "-" +:+ id parentCommit)
                         (calculatePath startX startY endX endY)
                         (color commit))
          else None
      | None => None
      end
  end.

Definition branchConnections (gitHistory : list Commit)
  : list (option PathElem) :=
  imap (branchConnection gitHistory) gitHistory.

(** Third pass, commit nodes; a click on a node calls
    [handleCommitClick] with the commit the node was made from. *)
Definition commitNode (s : State) (index : nat) (commit : Commit) : NodeElem :=
  let x := 40 + position commit * 20 in
  let y := Z.of_nat index * 80 + 40 in
  mkNode (id commit) commit (isSelected s commit) x y
         (if bool_decide (type commit = "merge") then 8 else 6)
         (message commit).

Definition commitNodes (s : State) : list NodeElem :=
  imap (commitNode s) (gitHistory s).

Record Scene : Type := mkScene {
  svgHeight : Z;
  lines : list (option LineElem);
  connections : list (option PathElem);
  nodes : list NodeElem
}.

Definition scene (s : State) : Scene :=
  mkScene (Z.of_nat (length (gitHistory s)) * 80 + 80)
          (branchLines (gitHistory s))
          (branchConnections (gitHistory s))
          (commitNodes s).

(** What the centre pane shows: nothing without a repository, a spinner
    while loading, the graph otherwise. *)
Inductive View : Type :=
  | OpenButton
  | Spinner
  | Graph (sc : Scene).

Definition view (s : State) : View :=
  if negb (truthy (currentRepo s)) then OpenButton
  else if loading s then Spinner
  else Graph (scene s).

(** A connector of the rendered graph for the edge from the commit at
    row [i] to the commit at row [j]: a path of the second pass that
    joins the two nodes, or a line of the first pass when [j] is the row
    right below [i] in the same column. *)
Definition pathJoins (gitHistory : list Commit) (i j : nat) (p : PathElem)
  : Prop :=
  ∃ c q, gitHistory !! i = Some c ∧ gitHistory !! j = Some q ∧
    d p = calculatePath (nodeX (position c)) (nodeY i)
                        (nodeX (position q)) (nodeY j).

Definition lineJoins (gitHistory : list Commit) (i j : nat) (l : LineElem)
  : Prop :=
  ∃ c q, gitHistory !! i = Some c ∧ gitHistory !! j = Some q ∧
    x1 l = nodeX (position c) ∧ y1 l = nodeY i ∧
    x2 l = nodeX (position q) ∧ y2 l = nodeY j.

Definition hasConnector (gitHistory : list Commit) (i j : nat) : Prop :=
  (∃ p, Some p ∈ branchConnections gitHistory ∧ pathJoins gitHistory i j p) ∨
  (∃ l, Some l ∈ branchLines gitHistory ∧
        (lineJoins gitHistory i j l ∨ lineJoins gitHistory j i l)).

(** ** Selection and the store *)

(** The selected commit, if there is one, has its id in the store. *)
Definition selectionInStore (s : State) : Prop :=
  ∀ a, selectedCommit s = Some a → ∃ c, c ∈ gitHistory s ∧ id c = id a.

(** The nodes drawn with the selection highlight. *)
Definition highlightedNodes (s : State) : list NodeElem :=
  filter (λ n, highlighted n = true) (commitNodes s).

(** Traces in which every click lands on a node of the graph as it is
    then displayed, and every refresh that succeeds while a commit is
    selected still lists a commit with that id. *)
Fixpoint batchesKeepSelection (s : State) (events : list Event) : Prop :=
  match events with
  | [] => True
  | e :: rest =>
      match e with
      | Click commit => commit ∈ gitHistory s
      | RefreshResult (Fulfilled (_, historyData)) =>
          ∀ a, selectedCommit s = Some a →
               id a ∈ id <$> orEmpty historyData
      | _ => True
      end ∧ batchesKeepSelection (step s e) rest
  end.

(** ** Sample history: a merge of a side branch into the main line *)

Definition sample (i : string) (ps : list string) (lane : Z) (t : string)
  : Commit :=
  mkCommit i ("commit " +:+ i) "dev" "2024-01-19" (Some "main") ps lane
           "#4A9EFF" t.

Definition mergeTip : Commit := sample "m1" ["a2"; "b2"] 0 "merge".
Definition sideTwo : Commit := sample "b2" ["b1"] 1 "commit".
Definition mainTwo : Commit := sample "a2" ["a1"] 0 "commit".
Definition sideOne : Commit := sample "b1" ["a1"] 1 "commit".
Definition root : Commit := sample "a1" [] 0 "commit".

(** Rows 0 to 4.  [mergeTip] has both parents in the store: the primary
    one, [mainTwo], two rows down in its own lane 0, and [sideTwo] in
    lane 1. *)
Definition mergeHistory : list Commit :=
  [mergeTip; sideTwo; mainTwo; sideOne; root].

(** The same repository after the merge was rewritten away. *)
Definition rewrittenHistory : list Commit :=
  [sideTwo; mainTwo; sideOne; root].

(** Two commits in rows 0 and 1 of lane 0, the lower one not a parent
    of the upper one (whose parent was not fetched). *)
Definition strangers : list Commit :=
  [sample "t1" ["t0"] 0 "commit"; sample "o1" [] 0 "commit"].

(** ** The handlers as state transformers, and every user action *)

Definition handleOpenRepository (s : State)
    (selected : Settled (option string)) (opened : Settled unit) : State :=
  runCalls (handleOpenRepository_calls selected opened) s.

(** An action is an event of the engine, the "Open Repository" button
    (with how the dialog and [open_repository] settled) or the
    auto-refresh checkbox. *)
Inductive Action : Type :=
  | Engine (e : Event)
  | OpenRepository (selected : Settled (option string)) (opened : Settled unit)
  | ToggleAutoRefresh (checked : bool).

Definition perform (s : State) (a : Action) : State :=
  match a with
  | Engine e => step s e
  | OpenRepository selected opened => handleOpenRepository s selected opened
  | ToggleAutoRefresh checked => setAutoRefresh checked s
  end.

Definition performAll (s : State) (actions : list Action) : State :=
  foldl perform s actions.

(** ** Texts derived from the state *)

(** [str.split(sep)] for a one-character separator: the pieces between
    the separators, never an empty array. *)
Fixpoint split (sep : Ascii.ascii) (str : string) : list string :=
  match str with
  | EmptyString => [EmptyString]
  | String ch rest =>
      if bool_decide (ch = sep) then EmptyString :: split sep rest
      else match split sep rest with
           | piece :: pieces => String ch piece :: pieces
           | [] => [String ch EmptyString]
           end
  end.

(** [array.join(sep)]. *)
Fixpoint join (sep : Ascii.ascii) (pieces : list string) : string :=
  match pieces with
  | [] => EmptyString
  | [piece] => piece
  | piece :: rest => piece +:+ String sep (join sep rest)
  end.

(** [currentRepo.split('/').pop()] inside a template string: the last
    piece, and the text "undefined" for what [pop] gives on an empty
    array. *)
Definition repoName (currentRepo : string) : string :=
  match last (split "/"%char currentRepo) with
  | Some piece => piece
  | None => "undefined"
  end.


(** [{error && <ErrorMessage message={error} .../>}]: the banner and
    its text; no banner for [null] or the empty string. *)
Definition errorBanner (s : State) : option string :=
  if truthy (error s) then error s else None.

End GitTide.

(** * The static page, [src/pages/index.tsx] *)

Module PagesIndex.

Record Commit : Type := mkCommit {
  hash : string;
  message : string;
  author : string;
  date : string;
  tags : option (list string);
  parents : list string;
  branch : string;
  column : Z
}.

Record Branch : Type := mkBranch {
  name : string;
  color : string
}.

Record PathElem : Type := mkPath {
  path_key : string;
  d : Path;
  stroke : string
}.

(** [branches.find(b => b.name === commit.branch)?.color || '#666']:
    the empty string is falsy as well. *)
Definition strokeOf (branches : list Branch) (commit : Commit) : string :=
  match GitTide.find (λ b, name b = branch commit) branches with
  | Some b => if bool_decide (color b = "") then "#666" else color b
  | None => "#666"
  end.

(** The "commit connections" of [renderBranchLines]: one entry per
    element of [commit.parents], [None] where the parent is not among
    [commits]. *)
Definition commitConnection (commits : list Commit) (branches : list Branch)
    (commit : Commit) (parentHash : string) : option PathElem :=
  match GitTide.find (λ c, hash c = parentHash) commits with
  | Some parentCommit =>
      let startX := 24 + column commit * 16 in
      let endX := 24 + column parentCommit * 16 in
      Some (mkPath (hash commit +:+ "-" +:+ parentHash)
                   [MoveTo (inject_Z startX) 12;
                    CubicTo (inject_Z startX) 24 (inject_Z endX) 0
                            (inject_Z endX) 12]
                   (strokeOf branches commit))
  | None => None
  end.

Definition commitConnections (commits : list Commit) (branches : list Branch)
    (commit : Commit) : list (option PathElem) :=
  map (commitConnection commits branches commit) (parents commit).

(** Selection of the page: the hash of the clicked row, set by
    [onClick={() => setSelectedCommit(commit.hash)}]. *)
Definition onRowClick (selectedCommit : option string) (commit : Commit)
  : option string :=
  Some (hash commit).

(** The commits and branches the page starts with. *)
Definition initialBranches : list Branch :=
  [mkBranch "main" "#2563eb";
   mkBranch "feature/auth" "#16a34a";
   mkBranch "hotfix/123" "#dc2626"].

Definition initialCommits : list Commit :=
  [mkCommit "abc123" "Merge branch feature/auth" "John Doe" "2024-01-19"
            (Some ["v1.0.0"]) ["def456"; "ghi789"] "main" 0;
   mkCommit "def456" "fix: Update authentication flow" "Jane Smith"
            "2024-01-18" None ["jkl012"] "main" 0;
   mkCommit "ghi789" "feat: Add OAuth support" "Alice Brown" "2024-01-17"
            None ["mno345"] "feature/auth" 1;
   mkCommit "jkl012" "chore: Update dependencies" "John Doe" "2024-01-16"
            None ["mno345"] "main" 0;
   mkCommit "mno345" "Initial commit" "John Doe" "2024-01-15"
            None [] "main" 0].

(** The "vertical branch lines" of [renderBranchLines]: one per branch,
    at [24 + colIndex * 16], over the full height of the row. *)
Record VLine : Type := mkVLine {
  vline_key : string;
  vx : Z;
  vstroke : string
}.

Definition verticalLines (branches : list Branch) : list VLine :=
  imap (λ colIndex b,
          mkVLine ("vertical-" +:+ name b) (24 + Z.of_nat colIndex * 16)
                  (color b))
       branches.

(** [selectedCommit === commit.hash], the test for the row highlight. *)
Definition rowSelected (selectedCommit : option string) (commit : Commit)
  : bool :=
  bool_decide (selectedCommit = Some (hash commit)).

End PagesIndex.

(** * Lane assignment

    The graph components read each commit's lane from the record they
    are given ([commit.position], [commit.column]); the function that
    computes it is not among the sources at hand. *)

Module LaneAssignment.

(** Modelled from the spec: the [CommitRecord] that the missing
    [assignLanes] takes, reduced to the fields lane assignment reads. *)
Record CommitRecord : Type := mkCommitRecord {
  id : string;
  parentIds : list string
}.

(** Modelled from the spec: the set of "active lanes" of the missing
    [assignLanes].  Slot [n] is lane [n]; [Some e] is an active lane
    whose expected next commit is [e], [None] a lane that is free. *)
Abbreviation Lanes := (list (option string)).

(** Modelled from the spec: the bookkeeping of "active lanes" that
    section 4.1 prescribes for [assignLanes]; the function that computes
    the lanes is missing from the sources.  [waitingLane] is the
    lowest-numbered active lane that expects [e]. *)
Definition waitingLane (e : string) (lanes : Lanes) : option nat :=
  fst <$> list_find (λ slot, slot = Some e) lanes.

(** Modelled from the spec: "the lowest-numbered unused lane (reuse
    freed lane numbers before allocating a new one)"; the allocator is
    missing from the sources.  A freed slot if there is one, the next new
    lane number otherwise. *)
Definition lowestUnused (lanes : Lanes) : nat :=
  match list_find (λ slot, slot = None) lanes with
  | Some (n, _) => n
  | None => length lanes
  end.

(** Modelled from the spec: registering an expected next commit, for
    the missing [assignLanes].  Makes lane [n] active with expected next
    commit [e]. *)
Definition occupy (n : nat) (e : string) (lanes : Lanes) : Lanes :=
  if bool_decide (n < length lanes)%nat then <[n := Some e]> lanes
  else lanes ++ replicate (n - length lanes) None ++ [Some e].

(** Modelled from the spec: retiring a lane, for the missing
    [assignLanes].  Frees lane [n]. *)
Definition release (n : nat) (lanes : Lanes) : Lanes :=
  <[n := None]> lanes.

(** Modelled from the spec: lanes whose continuation is consumed, for
    the missing [assignLanes].  Frees every lane that expects [e]. *)
Definition releaseWaiting (e : string) (lanes : Lanes) : Lanes :=
  (λ slot, if bool_decide (slot = Some e) then None else slot) <$> lanes.

(** Modelled from the spec: the number of open branches, for the
    missing [assignLanes]: the number of active lanes. *)
Definition openCount (lanes : Lanes) : nat :=
  length (filter (λ slot, is_Some slot) lanes).

(** Modelled from the spec: the treatment of merge sources, missing
    from the sources.  An additional parent of a merge gets a lane of its
    own unless an active lane already expects it. *)
Definition registerMergeParent (lanes : Lanes) (p : string) : Lanes :=
  match waitingLane p lanes with
  | Some _ => lanes
  | None => occupy (lowestUnused lanes) p lanes
  end.

(** Modelled from the spec: the choice of a lane for [c], missing from
    the sources: the lowest-numbered lane that expects [c] if there is
    one, the lowest-numbered unused lane otherwise.  Once [c] is placed
    the continuation of every lane that expected it is consumed, so all
    of them are freed; the lane [c] took is registered again by
    [layoutRow].  Returns the lane of [c] and the lanes left. *)
Definition placeCommit (c : CommitRecord) (lanes : Lanes) : nat * Lanes :=
  match waitingLane (id c) lanes with
  | Some l => (l, releaseWaiting (id c) lanes)
  | None => (lowestUnused lanes, lanes)
  end.

(** Modelled from the spec: one step of [assignLanes], missing from
    the sources.  The primary parent becomes the expected next commit of
    [c]'s lane, each further parent is registered as a merge source, and
    the lane of a commit without parents is retired.  Returns the
    commit's lane, the number of lanes active at this row (the commit's
    own lane included), and the active lanes handed to the next row. *)
Definition layoutRow (c : CommitRecord) (lanes : Lanes) : nat * nat * Lanes :=
  let '(l, lanes1) := placeCommit c lanes in
  match parentIds c with
  | [] =>
      (l, openCount (occupy l (id c) lanes1), release l lanes1)
  | primary :: mergeSources =>
      let lanes2 := foldl registerMergeParent (occupy l primary lanes1)
                          mergeSources in
      (l, openCount lanes2, lanes2)
  end.

(** Modelled from the spec: what the missing [assignLanes] produces and
    carries from row to row: the active lanes, the mapping from commit
    id to lane, the ids rejected as [InvalidHistory], and the number of
    lanes active at each row laid out so far. *)
Record Layout : Type := mkLayout {
  active : Lanes;
  laneOf : gmap string nat;
  rejected : list string;
  widths : list nat
}.

Definition emptyLayout : Layout := mkLayout [] ∅ [] [].

(** Modelled from the spec: the [InvalidHistory] edge case of
    [assignLanes], missing from the sources.  A commit that lists itself
    as a parent is rejected and takes no part in the layout. *)
Definition layoutCommit (st : Layout) (c : CommitRecord) : Layout :=
  if bool_decide (id c ∈ parentIds c) then
    mkLayout (active st) (laneOf st) (rejected st ++ [id c]) (widths st)
  else
    let '(l, w, lanes') := layoutRow c (active st) in
    mkLayout lanes' (<[id c := l]> (laneOf st)) (rejected st)
             (widths st ++ [w]).

(** Modelled from the spec: [assignLanes], which is missing from the
    sources, called without a previous assignment, as section 4.1
    describes it; the commits are processed in display order, newest
    first. *)
Definition assignLanes (commits : list CommitRecord) : Layout :=
  foldl layoutCommit emptyLayout commits.


(** Modelled from the spec: "total distinct lanes", for the missing
    [assignLanes]: the set of lanes in use. *)
Definition lanesUsed (st : Layout) : gset nat := map_img (laneOf st).

(** ** Open branches, read off the commit graph *)

(** Modelled from the spec: the branch lines of the graph, for the
    missing [assignLanes].  A line [(i, e)] is the edge from the commit
    of row [i] to its parent [e]; a parent listed twice gives one line.
    A line is pending once the rows [shown] are displayed if [e] is not
    among them: it runs on below them, to a later row or, for a parent
    that was not fetched, past the end. *)
Definition pendingFrom (shown : list string) (i : nat) (c : CommitRecord)
  : list (nat * string) :=
  (λ e, (i, e)) <$> filter (λ e, e ∉ shown) (remove_dups (parentIds c)).

(** Modelled from the spec: the branch lines that pass row [r], for
    the missing [assignLanes]: they leave a row above [r] for a commit
    that is shown neither above [r] nor at [r]. *)
Definition passingLines (commits : list CommitRecord) (r : nat)
  : list (nat * string) :=
  mjoin (imap (pendingFrom (id <$> take (S r) commits)) (take r commits)).

(** Modelled from the spec: "concurrent open branches" at row [r], for
    the missing [assignLanes], counted in the graph and not in the
    allocator: the lines that pass the row, plus the lines that leave
    the commit of the row, or the commit alone when no line leaves it. *)
Definition openBranches (commits : list CommitRecord) (r : nat) : nat :=
  match commits !! r with
  | Some c =>
      length (passingLines commits r) +
      Nat.max 1 (length (pendingFrom (id <$> take (S r) commits) r c))
  | None => 0
  end.

(** Modelled from the spec: "maximum concurrent open branches at any
    row", for the missing [assignLanes]. *)
Definition maxOpenBranches (commits : list CommitRecord) : nat :=
  max_list (openBranches commits <$> seq 0 (length commits)).





(** Parent references between the commits of a sequence, and the
    sequences in which they form no cycle. *)
Definition parentEdge (commits : list CommitRecord) (a b : string) : Prop :=
  ∃ c, c ∈ commits ∧ id c = a ∧ b ∈ parentIds c.

Definition acyclic (commits : list CommitRecord) : Prop :=
  ∀ a, ¬ tc (parentEdge commits) a a.

(** Lane [n] is active. *)
Definition occupied (lanes : Lanes) (n : nat) : Prop :=
  ∃ e, lanes !! n = Some (Some e).



(** Sample: a merge of a two-commit side branch, newest first. *)
Definition mergeRecords : list CommitRecord :=
  [mkCommitRecord "m1" ["a2"; "b2"];
   mkCommitRecord "b2" ["b1"];
   mkCommitRecord "a2" ["a1"];
   mkCommitRecord "b1" ["a1"];
   mkCommitRecord "a1" []].



(** Row numbers of [mergeRecords], anything else below them. *)
Definition mergeRank (i : string) : nat :=
  if bool_decide (i = "m1") then 0
  else if bool_decide (i = "b2") then 1
  else if bool_decide (i = "a2") then 2
  else if bool_decide (i = "b1") then 3
  else if bool_decide (i = "a1") then 4
  else 5.

End LaneAssignment.

(** * Properties *)

(** ** The path router *)

Section PathRouter.
Import GitTide.

Lemma half_between (a b : Z) :
  (inject_Z (a + b) / 2 - inject_Z a == inject_Z b - inject_Z (a + b) / 2)%Q.
Proof. rewrite inject_Z_plus. field. Qed.

Lemma calculatePath_same_column (x startY endY : Z) :
  calculatePath x startY x endY =
  [MoveTo (inject_Z x) (inject_Z startY); LineTo (inject_Z x) (inject_Z endY)].
Proof. unfold calculatePath. by rewrite bool_decide_eq_true_2. Qed.

Lemma calculatePath_near (startX startY endX endY : Z) :
  startX ≠ endX → Z.abs (endY - startY) < 2 * radius →
  SCurve startX startY endX endY (calculatePath startX startY endX endY).
Proof.
  intros Hx Hy. unfold calculatePath, minVerticalDist.
  rewrite bool_decide_eq_false_2 by done.
  rewrite bool_decide_eq_true_2 by lia.
  exists (inject_Z (startX + endX) / 2)%Q, (inject_Z (startY + endY) / 2)%Q.
  split; [reflexivity|]. split; apply half_between.
Qed.

Lemma calculatePath_far (startX startY endX endY : Z) :
  startX ≠ endX → 2 * radius <= Z.abs (endY - startY) →
  CornerCurve startX startY endX endY (calculatePath startX startY endX endY).
Proof.
  intros Hx Hy. unfold calculatePath, minVerticalDist.
  rewrite bool_decide_eq_false_2 by done.
  rewrite bool_decide_eq_false_2 by lia.
  unfold radius in *.
  eexists _, _. split; [reflexivity|].
  unfold radius. repeat case_bool_decide; lia.
Qed.

(** C1.  [calculatePath] joins a child node to a parent node by a
    straight vertical segment when both are in the same column; by one
    symmetric S-curve through the point halfway between them when the
    columns differ and the vertical distance is below two node radii;
    and otherwise by a corner curve: a vertical run from the child to
    one radius short of the parent's row, an arc that bends towards the
    parent's column, and a horizontal run into the parent. *)
Theorem calculatePath_shape (startX startY endX endY : Z) :
  (startX = endX →
     Straight startX startY endX endY
       (calculatePath startX startY endX endY)) ∧
  (startX ≠ endX → Z.abs (endY - startY) < 2 * radius →
     SCurve startX startY endX endY
       (calculatePath startX startY endX endY)) ∧
  (startX ≠ endX → 2 * radius <= Z.abs (endY - startY) →
     CornerCurve startX startY endX endY
       (calculatePath startX startY endX endY)).
Proof.
  split; [|split].
  - intros ->. split; [done | apply calculatePath_same_column].
  - apply calculatePath_near.
  - apply calculatePath_far.
Qed.

Lemma calculatePath_shape_witness :
  Straight 40 40 40 200 (calculatePath 40 40 40 200) ∧
  SCurve 40 40 60 55 (calculatePath 40 40 60 55) ∧
  CornerCurve 60 40 40 280 (calculatePath 60 40 40 280).
Proof.
  split; [|split].
  - apply (proj1 (calculatePath_shape 40 40 40 200)). reflexivity.
  - apply (proj1 (proj2 (calculatePath_shape 40 40 60 55))).
    + discriminate.
    + reflexivity.
  - apply (proj2 (proj2 (calculatePath_shape 60 40 40 280))).
    + discriminate.
    + discriminate.
Defined.

(** Between two nodes of the graph the columns are equal exactly when
    the lanes are, and rows are 80 apart: the S-curve is drawn only for
    two nodes of one row. *)
Lemma nodeX_inj (lane1 lane2 : Z) : nodeX lane1 = nodeX lane2 ↔ lane1 = lane2.
Proof. unfold nodeX. lia. Qed.

Lemma nodes_near_same_row (row1 row2 : nat) :
  Z.abs (nodeY row2 - nodeY row1) < 2 * radius ↔ row1 = row2.
Proof. unfold nodeY, radius. lia. Qed.

Example corner_curve_left :
  calculatePath 60 40 40 280 =
  [MoveTo 60 40; LineTo 60 270; QuadTo 60 280 50 280; LineTo 40 280].
Proof. reflexivity. Qed.

Example s_curve_half_pixel :
  calculatePath 40 40 60 55 =
  [MoveTo 40 40; QuadTo 40 (95 / 2) (100 / 2) (95 / 2); QuadTo 60 (95 / 2) 60 55]%Q.
Proof. reflexivity. Qed.

End PathRouter.

(** ** Selection *)

Section Selection.
Import GitTide.

Lemma isSelected_true (s : State) (commit : Commit) :
  isSelected s commit = true ↔
  ∃ a, selectedCommit s = Some a ∧ id a = id commit.
Proof.
  unfold isSelected. rewrite bool_decide_eq_true.
  destruct (selectedCommit s) as [a|]; simpl; split.
  - intros [= H]. eauto.
  - intros (b & [= <-] & H). by rewrite H.
  - discriminate.
  - intros (b & [=] & _).
Qed.

(** The click handler of the main component: a click selects the
    clicked commit when nothing is selected, clears the selection when
    the clicked commit is the selected one, and moves the selection to
    the clicked commit when another one is selected. *)
Theorem handleCommitClick_toggle (s : State) (commit : Commit) :
  (selectedCommit s = None →
     selectedCommit (handleCommitClick s commit) = Some commit) ∧
  (∀ a, selectedCommit s = Some a → id a = id commit →
     selectedCommit (handleCommitClick s commit) = None) ∧
  (∀ a, selectedCommit s = Some a → id a ≠ id commit →
     selectedCommit (handleCommitClick s commit) = Some commit).
Proof.
  unfold handleCommitClick, isSelected. split; [|split].
  - intros ->. reflexivity.
  - intros a -> Ha. simpl. rewrite Ha. by rewrite bool_decide_eq_true_2.
  - intros a -> Ha. simpl. rewrite bool_decide_eq_false_2; [done|].
    intros [= H]. done.
Qed.

Lemma handleCommitClick_toggle_witness :
  selectedCommit (handleCommitClick initialState mergeTip) = Some mergeTip ∧
  selectedCommit
    (handleCommitClick (setSelectedCommit (Some mergeTip) initialState)
                       mergeTip) = None ∧
  selectedCommit
    (handleCommitClick (setSelectedCommit (Some mergeTip) initialState)
                       mainTwo) = Some mainTwo.
Proof.
  split; [|split].
  - apply (proj1 (handleCommitClick_toggle initialState mergeTip)).
    reflexivity.
  - apply (proj1 (proj2 (handleCommitClick_toggle
                           (setSelectedCommit (Some mergeTip) initialState)
                           mergeTip)) mergeTip).
    + reflexivity.
    + reflexivity.
  - apply (proj2 (proj2 (handleCommitClick_toggle
                           (setSelectedCommit (Some mergeTip) initialState)
                           mainTwo)) mergeTip).
    + reflexivity.
    + discriminate.
Defined.

(** A click changes nothing but the selection. *)
Lemma handleCommitClick_frame (s : State) (commit : Commit) :
  gitHistory (handleCommitClick s commit) = gitHistory s ∧
  branches (handleCommitClick s commit) = branches s ∧
  currentRepo (handleCommitClick s commit) = currentRepo s.
Proof. done. Qed.

(** The row click of the static page always selects: a second click on
    the selected row leaves it selected. *)
Lemma onRowClick_selects (sel : option string) (commit : PagesIndex.Commit) :
  PagesIndex.onRowClick sel commit = Some (PagesIndex.hash commit).
Proof. reflexivity. Qed.

(** C4, on the static page.  The row click never clears the selection:
    with the first row of the page selected, a click on that row leaves
    it selected and highlighted, where the click handler of the main
    component, in the same situation, clears the selection. *)
Theorem row_click_never_clears :
  (∀ sel commit, PagesIndex.onRowClick sel commit ≠ None) ∧
  (∃ commit, PagesIndex.initialCommits !! 0%nat = Some commit ∧
     PagesIndex.hash commit = "abc123" ∧
     PagesIndex.onRowClick (Some "abc123") commit = Some "abc123" ∧
     PagesIndex.rowSelected
       (PagesIndex.onRowClick (Some "abc123") commit) commit = true) ∧
  selectedCommit
    (handleCommitClick (setSelectedCommit (Some mergeTip) initialState)
                       mergeTip) = None.
Proof.
  split; [done|]. split; [|done].
  eexists. split; [reflexivity|]. done.
Qed.

End Selection.

(** ** Reconciliation *)

Section Reconciliation.
Import GitTide.

(** What [refreshData] leaves behind, in closed form. *)
Lemma refreshData_fulfilled (s : State) branchesData historyData :
  refreshData s (Fulfilled (branchesData, historyData)) =
  mkState (currentRepo s) (orEmpty branchesData) (orEmpty historyData)
          None false (selectedCommit s) (autoRefresh s).
Proof. reflexivity. Qed.

Lemma refreshData_rejected (s : State) (err : string) :
  refreshData s (Rejected err) =
  mkState (currentRepo s) (branches s) (gitHistory s)
          (Some err) false (selectedCommit s) (autoRefresh s).
Proof. reflexivity. Qed.

Lemma refreshData_selection (s : State) (batch : Batch) :
  selectedCommit (refreshData s batch) = selectedCommit s.
Proof. by destruct batch as [[??]|?]. Qed.

(** C5.  Reconciling the same batch twice gives the state that
    reconciling it once gives. *)
Theorem reconcile_idempotent (s : State) (batch : Batch) :
  reconcile (reconcile s batch) batch = reconcile s batch.
Proof.
  unfold reconcile. destruct batch as [[branchesData historyData]|err].
  - by rewrite !refreshData_fulfilled.
  - by rewrite !refreshData_rejected.
Qed.

Lemma Promise_all_rejected {A B : Type} (a : Settled A) (b : Settled B) :
  (∃ e, a = Rejected e) ∨ (∃ e, b = Rejected e) →
  ∃ e, Promise_all a b = Rejected e.
Proof.
  intros [[e ->]|[e ->]]; simpl; [eauto|].
  destruct a; eauto.
Qed.

(** C6.  When one of the two transport calls of a refresh fails, the
    commit store (and with it every commit's lane), the branch list and
    the selection are the same after every setter call of that refresh,
    and in the state it ends in, as they were before it. *)
Theorem refreshData_failure_atomic (s : State)
    (branchesResult : Settled (option (list Branch)))
    (historyResult : Settled (option (list Commit))) :
  (∃ e, branchesResult = Rejected e) ∨ (∃ e, historyResult = Rejected e) →
  let batch := Promise_all branchesResult historyResult in
  (∀ s', s' ∈ statesAfter (refreshData_calls batch) s ∨
         s' = refreshData s batch →
     gitHistory s' = gitHistory s ∧
     branches s' = branches s ∧
     selectedCommit s' = selectedCommit s).
Proof.
  intros Hfail batch. destruct (Promise_all_rejected _ _ Hfail) as [e He].
  subst batch. rewrite He. intros s' [Hin | ->].
  - simpl in Hin. set_unfold. destruct Hin as [->|[->|[->|[]]]]; done.
  - done.
Qed.

Lemma refreshData_failure_atomic_witness :
  let s := setSelectedCommit (Some mergeTip)
             (setGitHistory mergeHistory initialState) in
  let s' := refreshData s (Promise_all (Fulfilled (Some []))
                                       (Rejected "git: not a repository")) in
  gitHistory s' = mergeHistory ∧ branches s' = [] ∧
  selectedCommit s' = Some mergeTip.
Proof.
  intros s s'.
  apply (refreshData_failure_atomic s (Fulfilled (Some []))
           (Rejected "git: not a repository")).
  - right. eexists. reflexivity.
  - right. reflexivity.
Defined.

(** A refresh changes the store and the branch list together or not at
    all. *)
Lemma refreshData_all_or_nothing (s : State) (batch : Batch) :
  (gitHistory (refreshData s batch) = gitHistory s ∧
   branches (refreshData s batch) = branches s) ∨
  (∃ branchesData historyData,
     batch = Fulfilled (branchesData, historyData) ∧
     gitHistory (refreshData s batch) = orEmpty historyData ∧
     branches (refreshData s batch) = orEmpty branchesData).
Proof. destruct batch as [[b h]|e]; [right; eauto | by left]. Qed.

(** C10.  A refresh that succeeds with [null] (or [undefined]) in place
    of the history empties the commit store, one with [null] in place of
    the branches empties the branch list, both whatever they held
    before; the selection stays as it was. *)
Theorem refreshData_null_result (s : State)
    (branchesData : option (list Branch))
    (historyData : option (list Commit)) :
  gitHistory (refreshData s (Fulfilled (branchesData, None))) = [] ∧
  branches (refreshData s (Fulfilled (None, historyData))) = [] ∧
  (gitHistory (refreshData s (Fulfilled (None, None))) = [] ∧
   branches (refreshData s (Fulfilled (None, None))) = []) ∧
  selectedCommit (refreshData s (Fulfilled (branchesData, historyData))) =
    selectedCommit s.
Proof. done. Qed.

Example null_result_wipes_graph :
  let s := setSelectedCommit (Some mergeTip)
             (setGitHistory mergeHistory initialState) in
  gitHistory (refreshData s (Fulfilled (None, None))) = [] ∧
  selectedCommit (refreshData s (Fulfilled (None, None))) = Some mergeTip.
Proof. done. Qed.

(** C8.  Closing the repository empties the commit store and the branch
    list and clears the selection, as in the initial state, whatever the
    state before. *)
Theorem handleCloseRepository_resets (s : State) :
  gitHistory (handleCloseRepository s) = [] ∧
  branches (handleCloseRepository s) = [] ∧
  selectedCommit (handleCloseRepository s) = None ∧
  currentRepo (handleCloseRepository s) = None ∧
  error (handleCloseRepository s) = None ∧
  gitHistory (handleCloseRepository s) = gitHistory initialState ∧
  branches (handleCloseRepository s) = branches initialState ∧
  selectedCommit (handleCloseRepository s) = selectedCommit initialState.
Proof. done. Qed.

(** The two flags are not state of the graph and are left alone. *)
Lemma handleCloseRepository_flags (s : State) :
  loading (handleCloseRepository s) = loading s ∧
  autoRefresh (handleCloseRepository s) = autoRefresh s.
Proof. done. Qed.

Lemma handleCloseRepository_from_initial_flags (s : State) :
  loading s = false → autoRefresh s = true →
  handleCloseRepository s = initialState.
Proof. destruct s; simpl. by intros -> ->. Qed.

End Reconciliation.

(** ** Selection across refreshes *)

Section SelectionInvariant.
Import GitTide.

Lemma step_selection_refresh (s : State) (batch : Batch) :
  selectedCommit (step s (RefreshResult batch)) = selectedCommit s.
Proof. apply refreshData_selection. Qed.

Lemma handleCommitClick_in_store (s : State) (commit : Commit) :
  commit ∈ gitHistory s → selectionInStore (handleCommitClick s commit).
Proof.
  intros Hin a. unfold handleCommitClick. simpl.
  destruct (isSelected s commit); [discriminate|].
  intros [= <-]. eauto.
Qed.

Lemma reconcile_in_store (s : State) (batch : Batch) :
  selectionInStore s →
  match batch with
  | Fulfilled (_, historyData) =>
      ∀ a, selectedCommit s = Some a → id a ∈ id <$> orEmpty historyData
  | Rejected _ => True
  end →
  selectionInStore (reconcile s batch).
Proof.
  intros Hs Hb a. destruct batch as [[bd hd]|e]; simpl; intros Ha.
  - apply Hb in Ha. apply list_elem_of_fmap in Ha as (c & Hc & Hin). eauto.
  - by apply Hs.
Qed.

Lemma run_in_store (events : list Event) (s : State) :
  selectionInStore s → batchesKeepSelection s events →
  selectionInStore (run s events).
Proof.
  revert s. induction events as [|e rest IH]; intros s Hs Hok; [done|].
  destruct Hok as [He Hrest]. apply (IH (step s e)); [|done].
  destruct e as [commit|batch| |]; simpl.
  - by apply handleCommitClick_in_store.
  - apply reconcile_in_store; [done|]. by destruct batch as [[??]|?].
  - intros a. discriminate.
  - intros a. discriminate.
Qed.

Lemma filter_imap_length {A B : Type} (P : B → Prop) (Q : A → Prop)
    `{∀ y, Decision (P y)} `{∀ x, Decision (Q x)}
    (g : nat → A → B) (l : list A) :
  (∀ i x, P (g i x) ↔ Q x) →
  length (filter P (imap g l)) = length (filter Q l).
Proof.
  revert g. induction l as [|x l IH]; intros g Hg; [done|].
  rewrite imap_cons, !filter_cons.
  destruct (decide (P (g 0%nat x))) as [HP|HP], (decide (Q x)) as [HQ|HQ];
    simpl.
  - f_equal. apply IH. intros i y. apply Hg.
  - exfalso. apply HQ, (Hg 0%nat x), HP.
  - exfalso. apply HP, Hg, HQ.
  - apply IH. intros i y. apply Hg.
Qed.

Lemma filter_none {A : Type} (P : A → Prop) `{∀ x, Decision (P x)}
    (l : list A) :
  (∀ x, x ∈ l → ¬ P x) → filter P l = [].
Proof.
  induction l as [|x l IH]; intros Hl; [done|].
  rewrite filter_cons. destruct (decide (P x)) as [HP|_].
  - exfalso. eapply Hl; [left|done].
  - apply IH. intros y Hy. apply Hl. by right.
Qed.

Lemma filter_by_id_length (i : string) (l : list Commit) :
  NoDup (id <$> l) → (length (filter (λ c, id c = i) l) <= 1)%nat.
Proof.
  induction l as [|c l IH]; simpl; intros Hnd; [lia|].
  apply NoDup_cons in Hnd as [Hc Hnd]. rewrite filter_cons.
  destruct (decide (id c = i)) as [<-|Hne]; [|by apply IH].
  assert (filter (λ c0, id c0 = id c) l = []) as ->; [|simpl; lia].
  apply filter_none. intros c' Hc' Heq. apply Hc.
  rewrite <- Heq. apply list_elem_of_fmap. eauto.
Qed.

(** With distinct ids in the store at most one node is highlighted. *)
Lemma highlighted_at_most_one (s : State) :
  NoDup (id <$> gitHistory s) → (length (highlightedNodes s) <= 1)%nat.
Proof.
  intros Hnd. unfold highlightedNodes, commitNodes.
  destruct (selectedCommit s) as [a|] eqn:Hsel.
  - rewrite (filter_imap_length _ (λ c, id c = id a)).
    + by apply filter_by_id_length.
    + intros i c. simpl. rewrite isSelected_true, Hsel. split.
      * by intros (b & [= <-] & Hb).
      * intros Hc. eauto.
  - rewrite (filter_imap_length _ (λ c, False)).
    + rewrite filter_none; [simpl; lia | by intros x _ []].
    + intros i c. simpl. rewrite isSelected_true, Hsel. split; [|done].
      by intros (b & [=] & _).
Qed.

(** The claim read on the code fails: after the merge commit was
    clicked and a refresh then delivers a history without it, it is
    still the selected commit although no commit of the store has its
    id. *)
Lemma selection_survives_rewrite :
  let s := run initialState
             [RefreshResult (Fulfilled (Some [], Some mergeHistory));
              Click mergeTip;
              RefreshResult (Fulfilled (Some [], Some rewrittenHistory))] in
  gitHistory s = rewrittenHistory ∧
  selectedCommit s = Some mergeTip ∧
  ¬ selectionInStore s.
Proof.
  simpl. split; [done|]. split; [done|].
  intros H. destruct (H mergeTip eq_refl) as (c & Hc & Hid).
  unfold rewrittenHistory in Hc. set_unfold.
  destruct Hc as [->|[->|[->|[->|[]]]]]; discriminate.
Qed.

(** C2, as the code has it.  A refresh never changes the selection.
    Along a trace of clicks on displayed commits, refresh results,
    dismissals and closings in which every successful refresh still
    lists the id of the commit selected at that moment, the selected
    commit has its id in the store; and whenever the ids of the store
    are distinct at most one node is highlighted. *)
Theorem selection_kept_by_reconcile (s : State) (events : list Event) :
  (∀ batch, selectedCommit (reconcile s batch) = selectedCommit s) ∧
  (selectionInStore s → batchesKeepSelection s events →
   selectionInStore (run s events) ∧
   (NoDup (id <$> gitHistory (run s events)) →
    (length (highlightedNodes (run s events)) <= 1)%nat)).
Proof.
  split; [apply refreshData_selection|].
  intros Hs Hok. split; [by apply run_in_store|].
  apply highlighted_at_most_one.
Qed.

Lemma selection_kept_by_reconcile_witness :
  let events :=
    [RefreshResult (Fulfilled (Some [], Some rewrittenHistory));
     Click sideTwo;
     RefreshResult (Fulfilled (Some [], Some mergeHistory));
     RefreshResult (Rejected "timeout")] in
  selectedCommit (run initialState events) = Some sideTwo ∧
  selectionInStore (run initialState events).
Proof.
  intros events. split; [reflexivity|].
  apply (selection_kept_by_reconcile initialState events).
  - intros a. discriminate.
  - simpl. repeat split; try discriminate.
    + set_solver.
    + intros a [= <-]. set_solver.
Defined.

End SelectionInvariant.

(** ** The rendered graph *)

Section Renderer.
Import GitTide.

Lemma nodeY_next (index : nat) : nodeY (index + 1) = nodeY index + 80.
Proof. unfold nodeY. lia. Qed.

Lemma branchLines_lookup (gitHistory : list Commit) (index : nat)
    (commit : Commit) :
  gitHistory !! index = Some commit →
  branchLines gitHistory !! index = Some (branchLine gitHistory index commit).
Proof.
  intros H. unfold branchLines. by rewrite list_lookup_imap, H.
Qed.

(** C9.  Two commits in consecutive rows of one lane are joined by a
    vertical line from the upper node to the lower node, whatever the
    parents of the upper commit are; and a line starts at a row only if
    the next row holds a commit of the same lane. *)
Theorem adjacent_same_lane_line (gitHistory : list Commit) (index : nat)
    (commit nextCommit : Commit) :
  gitHistory !! index = Some commit →
  (gitHistory !! (index + 1)%nat = Some nextCommit →
   position nextCommit = position commit →
   ∃ l, branchLines gitHistory !! index = Some (Some l) ∧
        Some l ∈ branchLines gitHistory ∧
        x1 l = nodeX (position commit) ∧ y1 l = nodeY index ∧
        x2 l = nodeX (position nextCommit) ∧ y2 l = nodeY (index + 1) ∧
        x1 l = x2 l) ∧
  ((∃ l, branchLines gitHistory !! index = Some (Some l)) →
   ∃ below, gitHistory !! (index + 1)%nat = Some below ∧
            position below = position commit).
Proof.
  intros Hc. rewrite (branchLines_lookup _ _ _ Hc). split.
  - intros Hn Hp. unfold branchLine. rewrite Hn.
    rewrite bool_decide_eq_true_2 by done.
    eexists. split; [reflexivity|]. split.
    + apply list_elem_of_lookup. exists index.
      rewrite (branchLines_lookup _ _ _ Hc). unfold branchLine.
      rewrite Hn. by rewrite bool_decide_eq_true_2.
    + simpl. rewrite Hp, nodeY_next. unfold nodeX, nodeY. done.
  - intros [l Hl]. unfold branchLine in Hl.
    destruct (gitHistory !! (index + 1)%nat) as [below|]; [|by inversion Hl].
    case_bool_decide; [eauto | by inversion Hl].
Qed.

Lemma adjacent_same_lane_line_witness :
  (∀ c, c ∈ strangers → "o1" ∉ parents c) ∧
  ∃ l, branchLines strangers !! 0%nat = Some (Some l) ∧
       Some l ∈ branchLines strangers ∧
       x1 l = 40 ∧ y1 l = 40 ∧ x2 l = 40 ∧ y2 l = 120 ∧ x1 l = x2 l.
Proof.
  split.
  - intros c Hc Hp. unfold strangers in Hc. set_unfold.
    destruct Hc as [->|[->|[]]]; simpl in Hp; set_unfold.
    + destruct Hp as [Hp|[]]. discriminate Hp.
    + destruct Hp.
  - apply (proj1 (adjacent_same_lane_line strangers 0
                    (sample "t1" ["t0"] 0 "commit")
                    (sample "o1" [] 0 "commit") eq_refl)).
    + reflexivity.
    + reflexivity.
Defined.

(** The connections pass draws for a commit at most the edge to the
    first entry of its parent list. *)
Lemma branchConnection_primary_only (gitHistory : list Commit) (index : nat)
    (commit : Commit) (p : PathElem) :
  branchConnection gitHistory index commit = Some p →
  ∃ parent0 rest, parents commit = parent0 :: rest ∧
                  path_key p = id commit +:+ "-" +:+ parent0.
Proof.
  unfold branchConnection.
  destruct (parents commit) as [|parent0 rest]; [discriminate|].
  destruct (find _ gitHistory) as [q|] eqn:Hq; [|discriminate].
  case_bool_decide; [|discriminate]. intros [= <-]. simpl.
  exists parent0, rest. split; [done|].
  unfold find in Hq. destruct (list_find _ gitHistory) as [[j q']|] eqn:Hf;
    [|discriminate].
  injection Hq as ->. apply list_find_Some in Hf as (_ & -> & _). done.
Qed.

Lemma branchConnections_length (gitHistory : list Commit) :
  length (branchConnections gitHistory) = length gitHistory.
Proof. unfold branchConnections. apply length_imap. Qed.

(** X8.  The edge to the first parent, when that parent is in the store
    at another row, always has a connector: a path, or a line of the
    first pass when the two are neighbours in one lane. *)
Lemma primary_parent_connected (gitHistory : list Commit) (i j : nat)
    (c q : Commit) (parent0 : string) (rest : list string) :
  gitHistory !! i = Some c →
  parents c = parent0 :: rest →
  list_find (λ x, id x = parent0) gitHistory = Some (j, q) →
  j ≠ i →
  hasConnector gitHistory i j.
Proof.
  intros Hc Hp Hf Hji.
  pose proof Hf as Hf'. apply list_find_Some in Hf' as (Hq & Hid & Hfirst).
  assert (list_find (λ x, id x = id q) gitHistory = Some (j, q)) as Hf2.
  { apply list_find_Some. split; [done|]. split; [done|].
    intros k y Hy Hk. rewrite Hid. by eapply Hfirst. }
  assert (branchConnection gitHistory i c =
          if bool_decide (40 + position c * 20 ≠ 40 + position q * 20 ∨
                          Z.abs (Z.of_nat j - Z.of_nat i) > 1)
          then Some (mkPath (id c +:+ "-" +:+ id q)
                       (calculatePath (nodeX (position c)) (nodeY i)
                                      (nodeX (position q)) (nodeY j))
                       (color c))
          else None) as Hbc.
  { unfold branchConnection, find, findIndex. rewrite Hp, Hf. simpl.
    rewrite Hf2. reflexivity. }
  case_bool_decide as Hcase.
  - left. eexists. split.
    + apply list_elem_of_lookup. exists i. unfold branchConnections.
      rewrite list_lookup_imap, Hc. simpl. by rewrite Hbc.
    + exists c, q. done.
  - right. assert (position q = position c ∧ (j = i + 1 ∨ i = j + 1)%nat)
      as [Hpos [-> | ->]] by lia.
    + eexists. split.
      * apply list_elem_of_lookup. exists i.
        rewrite (branchLines_lookup _ _ _ Hc). unfold branchLine.
        rewrite Hq. by rewrite bool_decide_eq_true_2.
      * left. exists c, q. simpl. rewrite Hpos, nodeY_next.
        unfold nodeX, nodeY. done.
    + eexists. split.
      * apply list_elem_of_lookup. exists j.
        rewrite (branchLines_lookup _ _ _ Hq). unfold branchLine.
        rewrite Hc. by rewrite bool_decide_eq_true_2.
      * right. exists q, c. simpl. rewrite Hpos, nodeY_next.
        unfold nodeX, nodeY. done.
Qed.

(** C3, at a merge whose two parents are both in the store: the graph
    has the straight connector to the primary parent two rows down, and
    nothing for the edge to the second parent, the commit of row 1 in
    lane 1: no path of the connections pass and no line of the lines
    pass joins the two nodes. *)
Theorem merge_second_parent_unconnected :
  parents mergeTip = ["a2"; "b2"] ∧
  mergeHistory !! 0%nat = Some mergeTip ∧
  mergeHistory !! 1%nat = Some sideTwo ∧ id sideTwo = "b2" ∧
  mergeHistory !! 2%nat = Some mainTwo ∧ id mainTwo = "a2" ∧
  branchConnections mergeHistory =
    [Some (mkPath "m1-a2" [MoveTo 40 40; LineTo 40 200] "#4A9EFF");
     Some (mkPath "b2-b1" [MoveTo 60 120; LineTo 60 280] "#4A9EFF");
     Some (mkPath "a2-a1" [MoveTo 40 200; LineTo 40 360] "#4A9EFF");
     Some (mkPath "b1-a1" [MoveTo 60 280; LineTo 60 350;
                           QuadTo 60 360 50 360; LineTo 40 360] "#4A9EFF");
     None] ∧
  branchLines mergeHistory = [None; None; None; None; None] ∧
  hasConnector mergeHistory 0 2 ∧
  ¬ hasConnector mergeHistory 0 1.
Proof.
  repeat (split; [reflexivity|]).
  split.
  - left. eexists. split.
    + apply list_elem_of_lookup. exists 0%nat. reflexivity.
    + exists mergeTip, mainTwo. repeat split; reflexivity.
  - intros [(p & Hp & c & q & Hc & Hq & Hd) | (l & Hl & _)].
    + injection Hc as <-. injection Hq as <-.
      vm_compute in Hd. vm_compute in Hp. set_unfold.
      destruct Hp as [Hp|[Hp|[Hp|[Hp|[Hp|[]]]]]];
        try discriminate Hp; injection Hp as ->; discriminate Hd.
    + vm_compute in Hl. set_unfold.
      destruct Hl as [Hl|[Hl|[Hl|[Hl|[Hl|[]]]]]]; discriminate Hl.
Qed.

(** The static page, by contrast, draws one connection for every entry
    of the parent list that is among the commits. *)
Lemma commitConnections_every_parent
    (commits : list PagesIndex.Commit) (branches : list PagesIndex.Branch)
    (commit : PagesIndex.Commit) (parentHash : string) :
  parentHash ∈ PagesIndex.parents commit →
  (∃ q, q ∈ commits ∧ PagesIndex.hash q = parentHash) →
  ∃ p, Some p ∈ PagesIndex.commitConnections commits branches commit ∧
       PagesIndex.path_key p =
         PagesIndex.hash commit +:+ "-" +:+ parentHash.
Proof.
  intros Hin (q & Hq & Hh). unfold PagesIndex.commitConnections.
  destruct (list_find_elem_of (λ c, PagesIndex.hash c = parentHash)
              commits q Hq Hh) as [[j q'] Hf].
  eexists. split.
  - apply list_elem_of_fmap. exists parentHash. split; [|done].
    unfold PagesIndex.commitConnection, find. rewrite Hf. reflexivity.
  - reflexivity.
Qed.

End Renderer.

(** ** Lane assignment *)

Section Lanes.
Import LaneAssignment.
Local Open Scope nat_scope.

Lemma not_None_occupied (slot : option string) :
  slot ≠ None → ∃ e, slot = Some e.
Proof. destruct slot; [eauto | done]. Qed.

(** Every lane below the lowest unused one is active: a new lane number
    is handed out only when no freed one is left. *)
Lemma lowestUnused_below (lanes : Lanes) (i : nat) :
  i < lowestUnused lanes → occupied lanes i.
Proof.
  unfold lowestUnused, occupied.
  destruct (list_find _ lanes) as [[n x]|] eqn:Hf; intros Hi.
  - apply list_find_Some in Hf as (Hn & _ & Hfirst).
    assert (i < length lanes) as Hlt.
    { apply lookup_lt_Some in Hn. lia. }
    apply lookup_lt_is_Some_2 in Hlt as [y Hy].
    destruct (not_None_occupied y) as [e ->]; [by eapply Hfirst | eauto].
  - apply list_find_None in Hf.
    apply lookup_lt_is_Some_2 in Hi as [y Hy].
    rewrite Forall_forall in Hf.
    destruct (not_None_occupied y) as [e ->]; [|eauto].
    apply Hf. by eapply list_elem_of_lookup_2.
Qed.


Lemma lowestUnused_reuses (lanes : Lanes) (i : nat) :
  lanes !! i = Some None → lowestUnused lanes <= i ∧ lowestUnused lanes < length lanes.
Proof.
  intros Hi. pose proof (lookup_lt_Some _ _ _ Hi) as Hlen.
  assert (lowestUnused lanes <= i); [|lia].
  destruct (decide (lowestUnused lanes <= i)) as [|Hn]; [done|].
  destruct (lowestUnused_below lanes i) as [e He]; [lia|].
  rewrite Hi in He. discriminate He.
Qed.























Lemma acyclic_no_self_parent (commits : list CommitRecord) (c : CommitRecord) :
  acyclic commits → c ∈ commits → id c ∉ parentIds c.
Proof.
  intros Hacyc Hc Hself. apply (Hacyc (id c)). apply tc_once.
  by exists c.
Qed.

(** Parent references that go down a ranking cannot form a cycle. *)
Lemma ranked_acyclic (commits : list CommitRecord) (rank : string → nat) :
  (∀ a b, parentEdge commits a b → rank a < rank b) → acyclic commits.
Proof.
  intros Hrank a Hcycle.
  assert (∀ x y, tc (parentEdge commits) x y → rank x < rank y) as Hlt.
  { intros x y Hxy. induction Hxy as [x y Hxy | x y z Hxy _ IH].
    - by apply Hrank.
    - apply Hrank in Hxy. lia. }
  apply Hlt in Hcycle. lia.
Qed.

Lemma mergeRecords_acyclic : acyclic mergeRecords.
Proof.
  apply (ranked_acyclic _ mergeRank). intros a b (c & Hc & <- & Hb).
  unfold mergeRecords in Hc. set_unfold.
  destruct Hc as [->|[->|[->|[->|[->|[]]]]]]; simpl in Hb; set_unfold;
    repeat (destruct Hb as [->|Hb]; [vm_compute; lia|]); destruct Hb.
Qed.

(** *** Lanes against the lines of the graph *)


































Example mergeRecords_lanes :
  (λ k, laneOf (assignLanes mergeRecords) !! k)
    <$> ["m1"; "b2"; "a2"; "b1"; "a1"] =
    [Some 0; Some 1; Some 0; Some 1; Some 0] ∧
  widths (assignLanes mergeRecords) = [2; 2; 2; 2; 1] ∧
  openBranches mergeRecords <$> seq 0 (length mergeRecords) =
    [2; 2; 2; 2; 1] ∧
  active (assignLanes mergeRecords) = [None; None] ∧
  size (lanesUsed (assignLanes mergeRecords)) = 2 ∧
  maxOpenBranches mergeRecords = 2.
Proof. repeat split; vm_compute; reflexivity. Qed.

(** A fork: two children of one parent take the two lowest lanes, the
    parent continues the lower one and ends the other, and an unrelated
    tip that follows reuses lane 1. *)
Example fork_reuses_lane :
  let fork := [mkCommitRecord "a" ["p"]; mkCommitRecord "b" ["p"];
               mkCommitRecord "p" ["q"]; mkCommitRecord "x" []] in
  (λ k, laneOf (assignLanes fork) !! k) <$> ["a"; "b"; "p"; "x"] =
    [Some 0; Some 1; Some 0; Some 1] ∧
  openBranches fork <$> seq 0 (length fork) = [1; 2; 1; 2] ∧
  active (assignLanes fork) = [Some "q"; None].
Proof. repeat split; vm_compute; reflexivity. Qed.

(** Four forks in a row still need two lanes only. *)
Example forks_do_not_accumulate :
  let forks := [mkCommitRecord "a1" ["p1"]; mkCommitRecord "b1" ["p1"];
                mkCommitRecord "p1" [];
                mkCommitRecord "a2" ["p2"]; mkCommitRecord "b2" ["p2"];
                mkCommitRecord "p2" [];
                mkCommitRecord "a3" ["p3"]; mkCommitRecord "b3" ["p3"];
                mkCommitRecord "p3" [];
                mkCommitRecord "a4" ["p4"]; mkCommitRecord "b4" ["p4"];
                mkCommitRecord "p4" []] in
  size (lanesUsed (assignLanes forks)) = 2 ∧
  maxOpenBranches forks = 2 ∧
  active (assignLanes forks) = [None; None].
Proof. repeat split; vm_compute; reflexivity. Qed.

End Lanes.

(** * Further properties of the code *)

(** ** Geometry of the connectors *)

Section ConnectorGeometry.
Import GitTide.

Lemma inject_le (a b : Z) : a <= b → (inject_Z a <= inject_Z b)%Q.
Proof. intros H. by rewrite <- Zle_Qle. Qed.

Lemma mid_between (a b : Z) :
  (inject_Z (Z.min a b) <= inject_Z (a + b) / 2)%Q ∧
  (inject_Z (a + b) / 2 <= inject_Z (Z.max a b))%Q.
Proof.
  rewrite inject_Z_plus.
  destruct (Z.le_ge_cases a b) as [Hab|Hab].
  - rewrite Z.min_l, Z.max_r by done. apply inject_le in Hab. split.
    + apply Qle_shift_div_l; [reflexivity | lra].
    + apply Qle_shift_div_r; [reflexivity | lra].
  - rewrite Z.min_r, Z.max_l by lia. apply inject_le in Hab. split.
    + apply Qle_shift_div_l; [reflexivity | lra].
    + apply Qle_shift_div_r; [reflexivity | lra].
Qed.

(** X1.  Whatever the coordinates, the path starts at the child's node
    and ends at the parent's node. *)
Theorem calculatePath_endpoints (startX startY endX endY : Z) :
  pathStart (calculatePath startX startY endX endY) =
    Some (inject_Z startX, inject_Z startY) ∧
  pathEnd (calculatePath startX startY endX endY) =
    Some (inject_Z endX, inject_Z endY).
Proof. unfold calculatePath. by repeat case_bool_decide. Qed.

(** A path between two points in one column, or in columns at least a
    radius apart, stays in the rectangle the two points span. *)
Lemma calculatePath_box (startX startY endX endY : Z) (pt : Q * Q) :
  startX = endX ∨ radius <= Z.abs (endX - startX) →
  pt ∈ pathPoints (calculatePath startX startY endX endY) →
  inBox startX startY endX endY pt.
Proof.
  intros Hx. unfold calculatePath, minVerticalDist, radius in *.
  pose proof (mid_between startX endX) as [Hmx1 Hmx2].
  pose proof (mid_between startY endY) as [Hmy1 Hmy2].
  repeat case_bool_decide; unfold pathPoints; simpl; intros Hpt; set_unfold;
    repeat (destruct Hpt as [->|Hpt]); try (destruct Hpt);
    unfold inBox; simpl;
    repeat split; try done; try (apply inject_le; lia).
Qed.

(** What a drawn path is made from: the first entry of the parent
    list, the first commit of the store with that id, and its row. *)
Lemma branchConnection_Some (gitHistory : list Commit) (i : nat)
    (c : Commit) (p : PathElem) :
  branchConnection gitHistory i c = Some p →
  ∃ parent0 rest j q,
    parents c = parent0 :: rest ∧
    list_find (λ x, id x = parent0) gitHistory = Some (j, q) ∧
    (position c ≠ position q ∨ Z.abs (Z.of_nat j - Z.of_nat i) > 1) ∧
    p = mkPath (id c +:+ "-" +:+ id q)
               (calculatePath (nodeX (position c)) (nodeY i)
                              (nodeX (position q)) (nodeY j))
               (color c).
Proof.
  unfold branchConnection, find, findIndex.
  destruct (parents c) as [|parent0 rest]; [discriminate|].
  destruct (list_find (λ x, id x = parent0) gitHistory) as [[j q]|] eqn:Hf;
    [|discriminate].
  simpl.
  pose proof Hf as Hf'. apply list_find_Some in Hf' as (Hq & Hid & Hfirst).
  assert (list_find (λ x, id x = id q) gitHistory = Some (j, q)) as ->.
  { apply list_find_Some. split; [done|]. split; [done|].
    intros k y Hy Hk. rewrite Hid. by eapply Hfirst. }
  case_bool_decide as Hcase; [|discriminate]. intros [= <-].
  exists parent0, rest, j, q. repeat split; [done|]. lia.
Qed.

(** X2.  A path of the connections pass is never the S-curve: it joins
    the child to a commit of another row by a straight segment (same
    lane) or by a corner curve (other lane). *)
Theorem drawn_path_shape (gitHistory : list Commit) (i : nat)
    (c : Commit) (p : PathElem) :
  gitHistory !! i = Some c →
  branchConnection gitHistory i c = Some p →
  ∃ j q, gitHistory !! j = Some q ∧ j ≠ i ∧
    (Straight (nodeX (position c)) (nodeY i)
              (nodeX (position q)) (nodeY j) (d p) ∨
     CornerCurve (nodeX (position c)) (nodeY i)
                 (nodeX (position q)) (nodeY j) (d p)) ∧
    ¬ SCurve (nodeX (position c)) (nodeY i)
             (nodeX (position q)) (nodeY j) (d p).
Proof.
  intros Hc Hp.
  apply branchConnection_Some in Hp
    as (parent0 & rest & j & q & Hpar & Hf & Hcase & ->).
  apply list_find_Some in Hf as (Hq & _ & _).
  assert (j ≠ i) as Hji.
  { intros ->. rewrite Hc in Hq. injection Hq as <-. lia. }
  exists j, q. split; [done|]. split; [done|]. simpl.
  destruct (decide (position c = position q)) as [Hpos|Hpos].
  - rewrite Hpos, calculatePath_same_column. split.
    + left. by split.
    + intros (mx & my & Heq & _). discriminate Heq.
  - assert (nodeX (position c) ≠ nodeX (position q)) as Hx
      by (unfold nodeX; lia).
    assert (2 * radius <= Z.abs (nodeY j - nodeY i)) as Hy
      by (unfold nodeY, radius; lia).
    pose proof (calculatePath_far _ _ _ _ Hx Hy) as Hcorner.
    split; [by right|].
    destruct Hcorner as (cornerY & bendX & -> & _).
    intros (mx & my & Heq & _). discriminate Heq.
Qed.

Lemma drawn_path_shape_witness :
  ∃ j q, mergeHistory !! j = Some q ∧ j ≠ 3%nat ∧
    (Straight 60 280 (nodeX (position q)) (nodeY j)
       [MoveTo 60 280; LineTo 60 350; QuadTo 60 360 50 360; LineTo 40 360] ∨
     CornerCurve 60 280 (nodeX (position q)) (nodeY j)
       [MoveTo 60 280; LineTo 60 350; QuadTo 60 360 50 360; LineTo 40 360]) ∧
    ¬ SCurve 60 280 (nodeX (position q)) (nodeY j)
       [MoveTo 60 280; LineTo 60 350; QuadTo 60 360 50 360; LineTo 40 360].
Proof.
  apply (drawn_path_shape mergeHistory 3 sideOne
           (mkPath "b1-a1" [MoveTo 60 280; LineTo 60 350;
                            QuadTo 60 360 50 360; LineTo 40 360] "#4A9EFF")).
  - reflexivity.
  - reflexivity.
Defined.

(** X3.  Every point a drawn path names, control points included, lies
    in the rectangle spanned by the child's node and the parent's node,
    hence between row 0 and the last row of the graph. *)
Theorem connector_inside_graph (gitHistory : list Commit) (i : nat)
    (c : Commit) (p : PathElem) (pt : Q * Q) :
  gitHistory !! i = Some c →
  branchConnection gitHistory i c = Some p →
  pt ∈ pathPoints (d p) →
  (∃ j q, gitHistory !! j = Some q ∧
     inBox (nodeX (position c)) (nodeY i)
           (nodeX (position q)) (nodeY j) pt) ∧
  (40 <= pt.2)%Q ∧
  (pt.2 <= inject_Z (Z.of_nat (length gitHistory) * 80 - 40))%Q.
Proof.
  intros Hc Hp Hpt.
  apply branchConnection_Some in Hp
    as (parent0 & rest & j & q & Hpar & Hf & Hcase & ->).
  apply list_find_Some in Hf as (Hq & _ & _). simpl in Hpt.
  apply calculatePath_box in Hpt.
  - pose proof (lookup_lt_Some _ _ _ Hc) as Hi.
    pose proof (lookup_lt_Some _ _ _ Hq) as Hj.
    split; [eauto|]. destruct Hpt as (_ & _ & Hy1 & Hy2). split.
    + eapply Qle_trans; [|exact Hy1].
      change 40%Q with (inject_Z 40). apply inject_le. unfold nodeY. lia.
    + eapply Qle_trans; [exact Hy2|]. apply inject_le. unfold nodeY. lia.
  - unfold nodeX, radius.
    destruct (decide (position c = position q)) as [->|Hne]; [by left|].
    right. lia.
Qed.

Lemma connector_inside_graph_witness :
  (40 <= 350)%Q ∧ (350 <= inject_Z (Z.of_nat (length mergeHistory) * 80 - 40))%Q.
Proof.
  apply (connector_inside_graph mergeHistory 3 sideOne
           (mkPath "b1-a1" [MoveTo 60 280; LineTo 60 350;
                            QuadTo 60 360 50 360; LineTo 40 360] "#4A9EFF")
           (60, 350)%Q).
  - reflexivity.
  - reflexivity.
  - unfold pathPoints. simpl. set_solver.
Defined.

End ConnectorGeometry.

(** ** Layout of the graph *)

Section GraphLayout.
Import GitTide.

Lemma commitNodes_lookup (s : State) (i : nat) (n : NodeElem) :
  commitNodes s !! i = Some n ↔
  ∃ c, gitHistory s !! i = Some c ∧ n = commitNode s i c.
Proof.
  unfold commitNodes. rewrite list_lookup_imap.
  destruct (gitHistory s !! i) as [c|]; simpl; split.
  - intros [= <-]. eauto.
  - by intros (c' & [= <-] & ->).
  - discriminate.
  - by intros (c' & [=] & _).
Qed.

Lemma commitNode_radius (s : State) (i : nat) (c : Commit) :
  r (commitNode s i c) = 6 ∨ r (commitNode s i c) = 8.
Proof. simpl. case_bool_decide; auto. Qed.

(** X4.  The graph has one line slot, one path slot and one node per
    commit, and every node circle lies inside the height of the SVG. *)
Theorem scene_fits (s : State) :
  length (lines (scene s)) = length (gitHistory s) ∧
  length (connections (scene s)) = length (gitHistory s) ∧
  length (nodes (scene s)) = length (gitHistory s) ∧
  ∀ n, n ∈ nodes (scene s) →
       0 < cy n - r n ∧ cy n + r n < svgHeight (scene s).
Proof.
  simpl. split; [|split; [|split]].
  - unfold branchLines. apply length_imap.
  - unfold branchConnections. apply length_imap.
  - unfold commitNodes. apply length_imap.
  - intros n Hn. apply list_elem_of_lookup in Hn as [i Hi].
    apply commitNodes_lookup in Hi as (c & Hc & ->).
    apply lookup_lt_Some in Hc.
    destruct (commitNode_radius s i c) as [Hr|Hr]; rewrite Hr; simpl; lia.
Qed.

Lemma scene_fits_witness :
  0 < 40 - 8 ∧ 40 + 8 < svgHeight (scene (setGitHistory mergeHistory initialState)).
Proof.
  apply (proj2 (proj2 (proj2
           (scene_fits (setGitHistory mergeHistory initialState))))
           (commitNode (setGitHistory mergeHistory initialState) 0 mergeTip)).
  apply list_elem_of_lookup. exists 0%nat. reflexivity.
Defined.

(** X5.  The circles of two different rows never touch: their centres
    are at least 80 apart vertically and no radius exceeds 8. *)
Theorem nodes_do_not_overlap (s : State) (i j : nat) (n m : NodeElem) :
  nodes (scene s) !! i = Some n →
  nodes (scene s) !! j = Some m →
  i ≠ j →
  r n + r m < Z.abs (cy n - cy m).
Proof.
  simpl. intros Hn Hm Hij.
  apply commitNodes_lookup in Hn as (c & Hc & ->).
  apply commitNodes_lookup in Hm as (c' & Hc' & ->).
  destruct (commitNode_radius s i c) as [Hr|Hr],
           (commitNode_radius s j c') as [Hr'|Hr'];
    rewrite Hr, Hr'; simpl; lia.
Qed.

Lemma nodes_do_not_overlap_witness :
  8 + 6 < Z.abs (40 - 120).
Proof.
  apply (nodes_do_not_overlap (setGitHistory mergeHistory initialState) 0 1
           (commitNode (setGitHistory mergeHistory initialState) 0 mergeTip)
           (commitNode (setGitHistory mergeHistory initialState) 1 sideTwo)).
  - reflexivity.
  - reflexivity.
  - discriminate.
Defined.

(** X6.  Every line of the first pass runs downwards from one row to
    the next inside the SVG; the last commit never starts one. *)
Theorem lines_inside_graph (gitHistory : list Commit) (i : nat)
    (l : LineElem) :
  branchLines gitHistory !! i = Some (Some l) →
  (i + 1 < length gitHistory)%nat ∧
  y1 l = nodeY i ∧ y2 l = nodeY (i + 1) ∧ x1 l = x2 l ∧
  0 < y1 l ∧ y2 l < Z.of_nat (length gitHistory) * 80 + 80.
Proof.
  unfold branchLines. rewrite list_lookup_imap.
  destruct (gitHistory !! i) as [c|] eqn:Hc; [|discriminate]. simpl.
  unfold branchLine.
  destruct (gitHistory !! (i + 1)%nat) as [below|] eqn:Hb; [|discriminate].
  case_bool_decide; [|discriminate]. intros [= <-].
  apply lookup_lt_Some in Hb. simpl. unfold nodeY. repeat split; lia.
Qed.

Lemma lines_inside_graph_witness :
  (0 + 1 < length strangers)%nat ∧
  40 = nodeY 0 ∧ 40 + 80 = nodeY (0 + 1) ∧ 40 = 40 ∧
  0 < 40 ∧ 40 + 80 < Z.of_nat (length strangers) * 80 + 80.
Proof.
  apply (lines_inside_graph strangers 0
           (mkLine "branch-t1" 40 40 40 (40 + 80) "#4A9EFF")).
  reflexivity.
Defined.

(** X7.  When the connections pass draws nothing for a commit: it has
    no parents, or its first parent is not in the store, or that parent
    sits in the same lane in the same or a neighbouring row. *)
Theorem no_path_iff (gitHistory : list Commit) (i : nat) (c : Commit) :
  branchConnection gitHistory i c = None ↔
  parents c = [] ∨
  ∃ parent0 rest, parents c = parent0 :: rest ∧
    (parent0 ∉ id <$> gitHistory ∨
     ∃ j q, list_find (λ x, id x = parent0) gitHistory = Some (j, q) ∧
            position q = position c ∧
            Z.abs (Z.of_nat j - Z.of_nat i) <= 1).
Proof.
  split.
  - destruct (parents c) as [|parent0 rest] eqn:Hpar; [by left|].
    intros Hnone. right. exists parent0, rest. split; [done|].
    destruct (list_find (λ x, id x = parent0) gitHistory) as [[j q]|] eqn:Hf.
    + right. exists j, q. split; [done|].
      destruct (decide (position q = position c ∧
                        Z.abs (Z.of_nat j - Z.of_nat i) <= 1)) as [|Hno];
        [done|].
      exfalso. pose proof Hf as Hf'.
      apply list_find_Some in Hf' as (Hq & Hid & Hfirst).
      assert (list_find (λ x, id x = id q) gitHistory = Some (j, q)) as Hf2.
      { apply list_find_Some. split; [done|]. split; [done|].
        intros k y Hy Hk. rewrite Hid. by eapply Hfirst. }
      unfold branchConnection, find, findIndex in Hnone.
      rewrite Hpar, Hf in Hnone. simpl in Hnone. rewrite Hf2 in Hnone.
      rewrite bool_decide_eq_true_2 in Hnone; [discriminate|]. lia.
    + left. apply list_find_None in Hf. rewrite Forall_forall in Hf.
      intros Hin. apply list_elem_of_fmap in Hin as (q & Hq & Hin).
      by eapply Hf.
  - intros [Hpar | (parent0 & rest & Hpar & [Hout | (j & q & Hf & Hpos & Hd)])].
    + unfold branchConnection. by rewrite Hpar.
    + unfold branchConnection, find. rewrite Hpar.
      destruct (list_find _ gitHistory) as [[j q]|] eqn:Hf; [|done].
      exfalso. apply Hout.
      apply list_find_Some in Hf as (Hq & Hid & _).
      apply list_elem_of_fmap. exists q. split; [done|].
      by eapply list_elem_of_lookup_2.
    + destruct (branchConnection gitHistory i c) as [p|] eqn:Hp; [|done].
      exfalso. apply branchConnection_Some in Hp
        as (parent0' & rest' & j' & q' & Hpar' & Hf' & Hcase & _).
      rewrite Hpar in Hpar'. injection Hpar' as <- <-.
      rewrite Hf in Hf'. injection Hf' as <- <-. lia.
Qed.

Lemma primary_parent_connected_witness :
  hasConnector mergeHistory 3 4.
Proof.
  apply (primary_parent_connected mergeHistory 3 4 sideOne root "a1" []).
  - reflexivity.
  - reflexivity.
  - reflexivity.
  - discriminate.
Defined.

End GraphLayout.

(** ** The handlers together *)

Section Handlers.
Import GitTide.

(** X9.  After a click only the clicked commit can be highlighted: a
    commit with the clicked id is highlighted exactly when it was not
    before, and no commit with another id is. *)
Theorem click_flips_highlight (s : State) (commit other : Commit) :
  isSelected (handleCommitClick s commit) other =
  if bool_decide (id other = id commit) then negb (isSelected s commit)
  else false.
Proof.
  unfold handleCommitClick.
  destruct (isSelected s commit) eqn:Hsel; unfold isSelected; simpl.
  - by case_bool_decide.
  - destruct (decide (id other = id commit)) as [Hid|Hid].
    + rewrite (bool_decide_eq_true_2 (id other = id commit)) by done.
      rewrite Hid. by apply bool_decide_eq_true_2.
    + rewrite (bool_decide_eq_false_2 (id other = id commit)) by done.
      apply bool_decide_eq_false_2. intros [= H]. by rewrite H in Hid.
Qed.

(** X10.  A successful refresh overrides whatever an earlier refresh
    left: the state after it does not depend on the earlier batch. *)
Theorem refresh_last_wins (s : State) (earlier : Batch)
    (branchesData : option (list Branch))
    (historyData : option (list Commit)) :
  refreshData (refreshData s earlier) (Fulfilled (branchesData, historyData)) =
  refreshData s (Fulfilled (branchesData, historyData)).
Proof. by destruct earlier as [[??]|?]. Qed.

(** X11.  Nothing ties a refresh to the open repository: a result that
    arrives after the repository was closed is stored like any other,
    while the view stays on the "Open Repository" button. *)
Theorem stale_refresh_is_applied (s : State)
    (branchesData : option (list Branch))
    (historyData : option (list Commit)) :
  let s' := refreshData (handleCloseRepository s)
                        (Fulfilled (branchesData, historyData)) in
  currentRepo s' = None ∧
  gitHistory s' = orEmpty historyData ∧
  branches s' = orEmpty branchesData ∧
  view s' = OpenButton.
Proof. done. Qed.


(** X13.  Every handler that switches [loading] on switches it off
    again: after any sequence of completed actions that starts with
    [loading] off, it is off, and the view is never the spinner. *)
Theorem loading_never_stuck (s : State) (actions : list Action) :
  loading s = false →
  loading (performAll s actions) = false ∧
  view (performAll s actions) ≠ Spinner.
Proof.
  intros Hs.
  assert (loading (performAll s actions) = false) as Hl.
  { revert s Hs. induction actions as [|a actions IH]; intros s Hs; [done|].
    simpl. apply IH. destruct a as [[c|batch| |]|selected opened|checked];
      simpl; try done.
    - by destruct batch as [[??]|?].
    - unfold handleOpenRepository, handleOpenRepository_calls.
      destruct selected as [[path|]|err]; simpl; try done.
      case_bool_decide; simpl; [done|]. by destruct opened. }
  split; [done|]. unfold view. rewrite Hl.
  by destruct (negb (truthy _)).
Qed.

Lemma loading_never_stuck_witness :
  loading (performAll initialState
             [OpenRepository (Fulfilled (Some "/home/dev/repo"))
                             (Fulfilled ());
              Engine (RefreshResult (Rejected "git: failed"));
              Engine (RefreshResult
                        (Fulfilled (Some [], Some mergeHistory)));
              Engine (Click mergeTip)]) = false.
Proof.
  apply (loading_never_stuck initialState
           [OpenRepository (Fulfilled (Some "/home/dev/repo"))
                           (Fulfilled ());
            Engine (RefreshResult (Rejected "git: failed"));
            Engine (RefreshResult
                      (Fulfilled (Some [], Some mergeHistory)));
            Engine (Click mergeTip)]).
  reflexivity.
Defined.

(** X14.  What each action can change.  The store and the branch list
    change only by a successful refresh or by closing; the selection
    only by a click, the dismiss button or closing; the auto-refresh
    flag only by its checkbox. *)
Theorem action_frames (s : State) (a : Action) :
  (gitHistory (perform s a) ≠ gitHistory s ∨
   branches (perform s a) ≠ branches s →
     (∃ b h, a = Engine (RefreshResult (Fulfilled (b, h)))) ∨
     a = Engine CloseRepository) ∧
  (selectedCommit (perform s a) ≠ selectedCommit s →
     (∃ c, a = Engine (Click c)) ∨ a = Engine Dismiss ∨
     a = Engine CloseRepository) ∧
  (autoRefresh (perform s a) ≠ autoRefresh s →
     ∃ checked, a = ToggleAutoRefresh checked).
Proof.
  assert (∀ selected opened,
            gitHistory (handleOpenRepository s selected opened) = gitHistory s ∧
            branches (handleOpenRepository s selected opened) = branches s ∧
            selectedCommit (handleOpenRepository s selected opened)
              = selectedCommit s ∧
            autoRefresh (handleOpenRepository s selected opened)
              = autoRefresh s) as Hopen.
  { intros selected opened.
    unfold handleOpenRepository, handleOpenRepository_calls.
    destruct selected as [[path|]|err]; simpl; try done.
    case_bool_decide; simpl; [done|]. by destruct opened. }
  destruct a as [[c|batch| |]|selected opened|checked]; simpl.
  - split; [intros [?|?]; done|]. split; [eauto | done].
  - destruct batch as [[b h]|err]; simpl.
    + split; [eauto|]. split; done.
    + split; [intros [?|?]; done|]. split; done.
  - split; [intros [?|?]; done|]. split; [eauto | done].
  - split; [eauto|]. split; [eauto | done].
  - destruct (Hopen selected opened) as (-> & -> & -> & ->).
    split; [intros [?|?]; done|]. split; done.
  - split; [intros [?|?]; done|]. split; [done | eauto].
Qed.

Lemma action_frames_witness :
  (∃ b h, Engine (RefreshResult (Fulfilled (None, Some mergeHistory))) =
          Engine (RefreshResult (Fulfilled (b, h)))) ∨
  Engine (RefreshResult (Fulfilled (None, Some mergeHistory))) =
  Engine CloseRepository.
Proof.
  apply (proj1 (action_frames initialState
                  (Engine (RefreshResult
                             (Fulfilled (None, Some mergeHistory)))))).
  left. discriminate.
Defined.

End Handlers.

(** ** Texts shown around the graph *)

Section Texts.
Import GitTide.

Lemma split_nonempty (sep : ascii) (str : string) : split sep str ≠ [].
Proof.
  destruct str as [|ch rest]; simpl; [done|].
  case_bool_decide; [done|]. by destruct (split sep rest).
Qed.

Lemma split_join (sep : ascii) (str : string) :
  join sep (split sep str) = str.
Proof.
  induction str as [|ch rest IH]; [done|]. simpl.
  pose proof (split_nonempty sep rest) as Hne.
  destruct (split sep rest) as [|piece pieces]; [done|].
  case_bool_decide as Hch.
  - rewrite Hch. change (join sep (EmptyString :: piece :: pieces))
      with (String sep (join sep (piece :: pieces))). by rewrite IH.
  - destruct pieces as [|piece' pieces].
    + simpl in *. by rewrite IH.
    + change (join sep (String ch piece :: piece' :: pieces))
        with (String ch (piece +:+ String sep (join sep (piece' :: pieces)))).
      f_equal. exact IH.
Qed.

Lemma split_pieces_free (sep : ascii) (str piece : string) :
  piece ∈ split sep str → sep ∉ String.list_ascii_of_string piece.
Proof.
  revert piece. induction str as [|ch rest IH]; intros piece; simpl.
  - intros ->%list_elem_of_singleton. simpl. apply not_elem_of_nil.
  - pose proof (split_nonempty sep rest) as Hne.
    destruct (split sep rest) as [|first pieces]; [done|].
    case_bool_decide as Hch.
    + intros [->|Hin]%elem_of_cons; [apply not_elem_of_nil | by apply IH].
    + intros [->|Hin]%elem_of_cons.
      * simpl. intros [Heq|Hin]%elem_of_cons; [done|].
        by apply (IH first); [left|].
      * apply IH. by right.
Qed.

Lemma append_assoc (a b c : string) : (a +:+ b) +:+ c = a +:+ (b +:+ c).
Proof.
  induction a as [|ch a IH]; [done|].
  change (String ch ((a +:+ b) +:+ c) = String ch (a +:+ b +:+ c)).
  by f_equal.
Qed.

Lemma join_last (sep : ascii) (pieces : list string) (x : string) :
  last pieces = Some x →
  (pieces = [x] ∧ join sep pieces = x) ∨
  ∃ dir, join sep pieces = dir +:+ String sep x.
Proof.
  induction pieces as [|a pieces IH]; [discriminate|].
  destruct pieces as [|b pieces].
  - intros [= ->]. by left.
  - rewrite last_cons_cons. intros Hlast. right.
    change (join sep (a :: b :: pieces))
      with (a +:+ String sep (join sep (b :: pieces))).
    destruct (IH Hlast) as [[_ ->]|[dir ->]].
    + by exists a.
    + exists (a +:+ String sep dir). by rewrite append_assoc.
Qed.

(** X15.  The name on the workspace tab is what follows the last slash
    of the repository path: it contains no slash, and the path is either
    that name alone or some directory part, a slash and the name.
    Splitting at the slashes loses nothing: joining the pieces gives the
    path back. *)
Theorem repoName_is_last_piece (currentRepo : string) :
  ("/"%char ∉ String.list_ascii_of_string (repoName currentRepo)) ∧
  (repoName currentRepo = currentRepo ∨
   ∃ dir, currentRepo = dir +:+ "/" +:+ repoName currentRepo) ∧
  join "/" (split "/" currentRepo) = currentRepo.
Proof.
  unfold repoName.
  pose proof (split_nonempty "/" currentRepo) as Hne.
  destruct (last (split "/" currentRepo)) as [x|] eqn:Hlast.
  - split; [|split].
    + eapply split_pieces_free. by eapply last_Some_elem_of.
    + destruct (join_last "/" _ _ Hlast) as [[_ Hj]|[dir Hj]];
        rewrite split_join in Hj; [by left|].
      right. by exists dir.
    + apply split_join.
  - by apply last_None in Hlast.
Qed.

Example repoName_samples :
  repoName "/home/dev/GitTide" = "GitTide" ∧
  repoName "GitTide" = "GitTide" ∧
  repoName "/home/dev/GitTide/" = "" ∧
  repoName "C:\Users\dev\GitTide" = "C:\Users\dev\GitTide".
Proof. done. Qed.



(** X17.  The error banner follows the last asynchronous handler: a
    successful refresh removes it, a failed one shows the text of its
    error (none when that text is empty), closing removes it. *)
Theorem errorBanner_after (s : State) (b : option (list Branch))
    (h : option (list Commit)) (err : string) :
  errorBanner (refreshData s (Fulfilled (b, h))) = None ∧
  errorBanner (refreshData s (Rejected err)) =
    (if bool_decide (err = "") then None else Some err) ∧
  errorBanner (handleCloseRepository s) = None.
Proof.
  unfold errorBanner. simpl. repeat split. by case_bool_decide.
Qed.

End Texts.

(** ** The static page *)

Section StaticPage.
Import PagesIndex.

(** X18.  The page draws one slot per entry of the parent list; the
    slot is empty exactly when no commit has that hash, and otherwise
    holds a curve from the commit's column to the column of the first
    commit with that hash, starting and ending at height 12. *)
Theorem commitConnections_slots (commits : list Commit)
    (branches : list Branch) (commit : Commit) (k : nat)
    (parentHash : string) :
  parents commit !! k = Some parentHash →
  length (commitConnections commits branches commit) =
    length (parents commit) ∧
  (commitConnections commits branches commit !! k = Some None ↔
     parentHash ∉ hash <$> commits) ∧
  (∀ p, commitConnections commits branches commit !! k = Some (Some p) →
     ∃ j q, list_find (λ c, hash c = parentHash) commits = Some (j, q) ∧
       path_key p = hash commit +:+ "-" +:+ parentHash ∧
       pathStart (d p) = Some (inject_Z (24 + column commit * 16), 12%Q) ∧
       pathEnd (d p) = Some (inject_Z (24 + column q * 16), 12%Q)).
Proof.
  intros Hk. unfold commitConnections.
  split; [apply length_map|].
  change (map ?f ?l) with (f <$> l).
  rewrite list_lookup_fmap, Hk. simpl.
  unfold commitConnection, GitTide.find.
  destruct (list_find _ commits) as [[j q]|] eqn:Hf; simpl.
  - split.
    + split; [discriminate|]. intros Hout. exfalso. apply Hout.
      apply list_find_Some in Hf as (Hq & Hh & _).
      apply list_elem_of_fmap. exists q. split; [done|].
      by eapply list_elem_of_lookup_2.
    + intros p [= <-]. exists j, q. done.
  - split; [|discriminate]. split; [|done]. intros _ Hin.
    apply list_find_None in Hf. rewrite Forall_forall in Hf.
    apply list_elem_of_fmap in Hin as (q & Hq & Hin). by eapply Hf.
Qed.

Lemma commitConnections_slots_witness :
  length (commitConnections [mkCommit "def456" "fix" "Jane" "2024-01-18"
                               None ["jkl012"] "main" 0]
            [mkBranch "main" "#2563eb"]
            (mkCommit "abc123" "Merge" "John" "2024-01-19" None
               ["def456"; "ghi789"] "main" 0)) = 2%nat.
Proof.
  apply (commitConnections_slots
           [mkCommit "def456" "fix" "Jane" "2024-01-18" None ["jkl012"]
              "main" 0]
           [mkBranch "main" "#2563eb"]
           (mkCommit "abc123" "Merge" "John" "2024-01-19" None
              ["def456"; "ghi789"] "main" 0) 1 "ghi789").
  reflexivity.
Defined.

(** X19.  Every connection the page draws takes its stroke from
    [strokeOf], which is never the empty string: it is the colour of
    the first branch named like the commit's branch, or the grey "#666"
    when that colour is empty or there is no such branch. *)
Theorem strokeOf_never_empty (commits : list Commit)
    (branches : list Branch) (commit : Commit) :
  strokeOf branches commit ≠ "" ∧
  (∀ k p, commitConnections commits branches commit !! k = Some (Some p) →
     stroke p = strokeOf branches commit ∧ stroke p ≠ "") ∧
  ((∀ b, b ∈ branches → name b ≠ branch commit) →
     strokeOf branches commit = "#666") ∧
  (∀ i b, branches !! i = Some b → name b = branch commit →
     (∀ j b', branches !! j = Some b' → (j < i)%nat →
        name b' ≠ branch commit) →
     strokeOf branches commit =
       if bool_decide (color b = "") then "#666" else color b).
Proof.
  assert (strokeOf branches commit ≠ "") as Hne.
  { unfold strokeOf, GitTide.find.
    destruct (list_find _ branches) as [[i b]|]; simpl; [|done].
    by case_bool_decide. }
  split; [done|]. split; [|split].
  - intros k p Hp. unfold commitConnections in Hp.
    change (map ?f ?l) with (f <$> l) in Hp.
    rewrite list_lookup_fmap in Hp.
    destruct (parents commit !! k) as [parentHash|]; [|discriminate].
    simpl in Hp. unfold commitConnection in Hp.
    destruct (GitTide.find _ commits) as [q|]; [|discriminate].
    injection Hp as <-. simpl. done.
  - intros Hnone. unfold strokeOf, GitTide.find.
    destruct (list_find _ branches) as [[i b]|] eqn:Hf; simpl; [|done].
    apply list_find_Some in Hf as (Hb & Hname & _).
    exfalso. apply (Hnone b); [|done]. by eapply list_elem_of_lookup_2.
  - intros i b Hb Hname Hfirst. unfold strokeOf, GitTide.find.
    assert (list_find (λ b0, name b0 = branch commit) branches = Some (i, b))
      as ->; [|done].
    apply list_find_Some. split; [done|]. split; [done|].
    intros j b' Hj Hlt. by apply (Hfirst j b').
Qed.

Lemma strokeOf_never_empty_witness :
  strokeOf initialBranches
    (mkCommit "ghi789" "feat: Add OAuth support" "Alice Brown" "2024-01-17"
       None ["mno345"] "feature/auth" 1) = "#16a34a".
Proof.
  apply (proj2 (proj2 (proj2
           (strokeOf_never_empty initialCommits initialBranches
              (mkCommit "ghi789" "feat: Add OAuth support" "Alice Brown"
                 "2024-01-17" None ["mno345"] "feature/auth" 1))))
           1%nat (mkBranch "feature/auth" "#16a34a")).
  - reflexivity.
  - reflexivity.
  - intros j b' Hj Hlt. destruct j as [|j]; [|lia].
    injection Hj as <-. discriminate.
Defined.

(** X20.  The vertical branch lines are 16 apart, one per branch in
    order, and a commit whose column is a branch's index starts its
    connections on that branch's line. *)
Theorem verticalLines_columns (commits : list Commit)
    (branches : list Branch) (commit : Commit) (colIndex : nat) (b : Branch)
    (k : nat) (p : PathElem) :
  branches !! colIndex = Some b →
  column commit = Z.of_nat colIndex →
  commitConnections commits branches commit !! k = Some (Some p) →
  ∃ v, verticalLines branches !! colIndex = Some v ∧
       vx v = 24 + Z.of_nat colIndex * 16 ∧
       vstroke v = color b ∧
       pathStart (d p) = Some (inject_Z (vx v), 12%Q).
Proof.
  intros Hb Hcol Hp. unfold verticalLines.
  rewrite list_lookup_imap, Hb. simpl. eexists. split; [reflexivity|].
  simpl. repeat split.
  unfold commitConnections in Hp.
  change (map ?f ?l) with (f <$> l) in Hp.
  rewrite list_lookup_fmap in Hp.
  destruct (parents commit !! k) as [parentHash|]; [|discriminate].
  simpl in Hp. unfold commitConnection in Hp.
  destruct (GitTide.find _ commits) as [q|]; [|discriminate].
  injection Hp as <-. simpl. by rewrite Hcol.
Qed.

Lemma verticalLines_columns_witness :
  ∃ v, verticalLines [mkBranch "main" "#2563eb";
                      mkBranch "feature/auth" "#16a34a"] !! 1%nat = Some v ∧
       vx v = 24 + Z.of_nat 1 * 16 ∧
       vstroke v = "#16a34a" ∧
       pathStart [MoveTo 40 12; CubicTo 40 24 24 0 24 12] =
         Some (inject_Z (vx v), 12%Q).
Proof.
  apply (verticalLines_columns
           [mkCommit "mno345" "Initial commit" "John" "2024-01-15" None []
              "main" 0]
           [mkBranch "main" "#2563eb"; mkBranch "feature/auth" "#16a34a"]
           (mkCommit "ghi789" "feat" "Alice" "2024-01-17" None ["mno345"]
              "feature/auth" 1)
           1 (mkBranch "feature/auth" "#16a34a") 0
           (mkPath "ghi789-mno345" [MoveTo 40 12; CubicTo 40 24 24 0 24 12]
              "#16a34a")).
  - reflexivity.
  - reflexivity.
  - reflexivity.
Defined.

(** X21.  A row click always selects the clicked row: afterwards
    exactly the rows with the clicked hash are highlighted, whatever was
    selected before, so a second click on the row changes nothing. *)
Theorem onRowClick_highlight (selectedCommit : option string)
    (commit other : Commit) :
  rowSelected (onRowClick selectedCommit commit) other =
    bool_decide (hash other = hash commit) ∧
  onRowClick (onRowClick selectedCommit commit) commit =
    onRowClick selectedCommit commit.
Proof.
  split; [|done]. unfold rowSelected, onRowClick.
  destruct (decide (hash other = hash commit)) as [Heq|Hne].
  - rewrite Heq. by rewrite !bool_decide_eq_true_2.
  - rewrite (bool_decide_eq_false_2 (hash other = hash commit)) by done.
    apply bool_decide_eq_false_2. intros [= H]. by rewrite H in Hne.
Qed.

End StaticPage.
